(** * GoBufferTest: the growable length-framed packet ring

    A shallow embedding of [circular_buffer/paging_buffer.go] (package
    [controller]) and the properties of its [Write], [Read], [grow],
    [available], [Count] and [Size] operations.

    Conventions of the embedding.
    - A Go [int] is a [Z].  Every [int] the package computes is bounded by
      the arena length (cursors, sizes), by [2 * len] or [5 * len] (growth)
      or by the number of queued packets, so 64-bit wrap-around needs an
      arena of more than [2^60] bytes and is not modelled.  The one [int]
      that comes from outside is the size [available] is asked for:
      [available_int] writes out the wrap-around of that function.
    - A [byte] is [Byte.byte]; [uint8] and [uint16] conversions are written
      out with [Z.shiftr], [Z.shiftl], [Z.lor] and [mod].
    - A [[]byte] is a [list byte].  Indexing, storing and slicing check
      their bounds as Go does and panic outside of them.
    - [sync.Mutex] is a [bool]: [Lock] on a held mutex never returns.
    - The growth loop of [Write] takes fuel. *)

From Stdlib Require Import ZArith Lia String DecimalString.
From Stdlib.Strings Require Import Byte.
From stdpp Require Import base tactics option list numbers.

Local Open Scope Z_scope.

(** ** Go slices of bytes *)

Module Go.

#[global] Instance byte_inhabited : Inhabited byte := populate x00.
#[global] Instance byte_eq_dec : EqDecision byte := Byte.byte_eq_dec.

(** [len(s)] *)
Definition len {A} (s : list A) : Z := Z.of_nat (length s).

(** [uint8(x)] for an [int] x: the low eight bits. *)
Definition uint8 (x : Z) : byte :=
  match Byte.of_N (Z.to_N (x mod 256)) with
  | Some c => c
  | None => x00
  end.

(** [int(c)] or [uint16(c)] for a byte c. *)
Definition byteZ (c : byte) : Z := Z.of_N (Byte.to_N c).

(** [uint16(x)] for a non-negative x: the low sixteen bits. *)
Definition uint16 (x : Z) : Z := x mod 65536.

(** [s[i]], [None] for the index-out-of-range panic. *)
Definition index (s : list byte) (i : Z) : option byte :=
  if decide (0 <= i < len s) then s !! Z.to_nat i else None.

(** [s[i] = c] *)
Definition store (s : list byte) (i : Z) (c : byte) : option (list byte) :=
  if decide (0 <= i < len s) then Some (<[Z.to_nat i := c]> s) else None.

(** [s[lo:hi]] for a slice whose capacity is its length. *)
Definition slice (s : list byte) (lo hi : Z) : option (list byte) :=
  if decide (0 <= lo <= hi /\ hi <= len s)
  then Some (take (Z.to_nat (hi - lo)) (drop (Z.to_nat lo) s))
  else None.

(** [make([]byte, n)] *)
Definition make (n : Z) : option (list byte) :=
  if decide (0 <= n) then Some (replicate (Z.to_nat n) x00) else None.

(** [copy(dst, src)]: the new contents of dst and the number of bytes
    copied, the smaller of the two lengths. *)
Definition copy (dst src : list byte) : list byte * Z :=
  let n := Z.min (len dst) (len src) in
  (take (Z.to_nat n) src ++ drop (Z.to_nat n) dst, n).

(** [copy(dst[lo:], src)]: the new contents of the whole of dst. *)
Definition copy_at (dst : list byte) (lo : Z) (src : list byte)
  : option (list byte * Z) :=
  match slice dst lo (len dst) with
  | Some window =>
      let '(window', n) := copy window src in
      Some (take (Z.to_nat lo) dst ++ window', n)
  | None => None
  end.

End Go.
Import Go.

(** ** Package controller: the circular buffer *)

(** The two kinds of error value the package makes: the package-level
    [ErrPacketTooBig] and the [errors.New(errMsg)] of [Read]. *)
Inductive error : Type :=
  | ErrPacketTooBig
  | errors_New (msg : string).

(** [fmt.Sprintf("%d", n)] *)
Definition sprint_d (n : Z) : string :=
  DecimalString.NilZero.string_of_int (Z.to_int n).

(** [fmt.Sprintf("short buffer, at least %d is needed", count)] *)
Definition short_buffer_msg (count : Z) : string :=
  String.append "short buffer, at least "
    (String.append (sprint_d count) " is needed").

Record Buffer : Type := mkBuffer {
  mutex : bool;        (* sync.Mutex: true when held *)
  data : list byte;
  head : Z;
  tail : Z;
  count : Z
}.

Definition set_mutex (m : bool) (b : Buffer) : Buffer :=
  mkBuffer m (data b) (head b) (tail b) (count b).
Definition set_data (d : list byte) (b : Buffer) : Buffer :=
  mkBuffer (mutex b) d (head b) (tail b) (count b).
Definition set_head (h : Z) (b : Buffer) : Buffer :=
  mkBuffer (mutex b) (data b) h (tail b) (count b).
Definition set_tail (t : Z) (b : Buffer) : Buffer :=
  mkBuffer (mutex b) (data b) (head b) t (count b).
Definition set_count (c : Z) (b : Buffer) : Buffer :=
  mkBuffer (mutex b) (data b) (head b) (tail b) c.

Definition minSize : Z := 2048.
Definition cutoffSize : Z := 128 * 1024.

(** What a call does: it returns a value and leaves a buffer, it panics
    (index or slice out of range), it blocks for ever on the mutex, or the
    model ran out of fuel. *)
Inductive outcome (A : Type) : Type :=
  | Returns (a : A) (b : Buffer)
  | Panics
  | Blocks
  | OutOfFuel.
Arguments Returns {A} a b.
Arguments Panics {A}.
Arguments Blocks {A}.
Arguments OutOfFuel {A}.

(** Methods on [*Buffer] are computations over the receiver. *)
Definition M (A : Type) : Type := Buffer -> outcome A.

Definition ret {A} (a : A) : M A := fun b => Returns a b.

Definition bind {A B} (m : M A) (k : A -> M B) : M B :=
  fun b =>
    match m b with
    | Returns a b' => k a b'
    | Panics => Panics
    | Blocks => Blocks
    | OutOfFuel => OutOfFuel
    end.

Declare Scope go_scope.
Delimit Scope go_scope with go.
Notation "x <- m ;; k" := (bind m (fun x => k))
  (at level 100, m at level 99, k at level 200, right associativity)
  : go_scope.
Notation "m ;;; k" := (bind m (fun _ => k))
  (at level 100, k at level 200, right associativity) : go_scope.
Local Open Scope go_scope.

Definition get : M Buffer := fun b => Returns b b.
Definition modify (f : Buffer -> Buffer) : M unit := fun b => Returns tt (f b).
Definition panic {A} : M A := fun _ => Panics.

(** A bounds-checked slice operation inside a method. *)
Definition check {A} (o : option A) : M A :=
  match o with
  | Some a => ret a
  | None => panic
  end.

Definition when (c : bool) (m : M unit) : M unit :=
  if c then m else ret tt.

(** [b.mutex.Lock()] *)
Definition Lock : M unit :=
  fun b => if mutex b then Blocks else Returns tt (set_mutex true b).

(** [b.mutex.Unlock()]; unlocking a mutex that is not held is fatal. *)
Definition Unlock : M unit :=
  fun b => if mutex b then Returns tt (set_mutex false b) else Panics.

(** [NewBuffer] *)
Definition NewBuffer : Buffer := mkBuffer false [] 0 0 0.

(** [available] *)
Definition available (size : Z) (b : Buffer) : bool :=
  let available := head b - tail b in
  let available :=
    if decide (available <= 0) then available + len (data b) else available in
  if decide (size + 2 + 1 > available) then false else true.

(** The largest [int]. *)
Definition max_int : Z := 2 ^ 63 - 1.

(** The smallest [int]. *)
Definition min_int : Z := - 2 ^ 63.

(** What an [int] operation yields for the exact result x: x wrapped
    around into the 64 bits of an [int]. *)
Definition wrap_int (x : Z) : Z := (x - min_int) mod 2 ^ 64 + min_int.

(** [available] with the wrap-around of its [int] arithmetic written out.
    [available] above is this function wherever none of the three results
    leaves the range of [int], which is so at every size Write passes. *)
Definition available_int (size : Z) (b : Buffer) : bool :=
  let available := wrap_int (head b - tail b) in
  let available :=
    if decide (available <= 0) then wrap_int (available + len (data b))
    else available in
  if decide (wrap_int (wrap_int (size + 2) + 1) > available) then false
  else true.

(** The new arena length [grow] computes.  On the non-negative lengths
    Go's truncating [/] is [Z.div]. *)
Definition newsize_of (cap : Z) : Z :=
  let newsize :=
    if decide (cap < cutoffSize) then 2 * cap else 5 * cap / 4 in
  if decide (newsize < minSize) then minSize else newsize.

(** [grow]; the error it returns is always nil. *)
Definition grow : M (option error) :=
  b <- get ;;
  let newsize := newsize_of (len (data b)) in
  newdata <- check (make newsize) ;;
  r <-
    (if decide (head b <= tail b) then
       (* data was contiguous *)
       src <- check (slice (data b) (head b) (tail b)) ;;
       ret (copy newdata src)
     else
       (* data was noncontiguous *)
       src1 <- check (slice (data b) (head b) (len (data b))) ;;
       let '(newdata, n) := copy newdata src1 in
       src2 <- check (slice (data b) 0 (tail b)) ;;
       r <- check (copy_at newdata n src2) ;;
       ret (fst r, n + snd r)) ;;
  let '(newdata, n) := r in
  modify (set_head 0) ;;;
  modify (set_tail n) ;;;
  modify (set_data newdata) ;;;
  ret None.

(** The loop [for !b.available(len(packet)) { err := b.grow(); ... }] of
    [Write].  It yields the error to return, if grow gave one. *)
Fixpoint grow_until (fuel : nat) (size : Z) : M (option error) :=
  fun b =>
    if available size b then Returns None b
    else
      match fuel with
      | O => OutOfFuel
      | S fuel' =>
          match grow b with
          | Returns (Some err) b' => Returns (Some err) b'
          | Returns None b' => grow_until fuel' size b'
          | Panics => Panics
          | Blocks => Blocks
          | OutOfFuel => OutOfFuel
          end
      end.

(** [b.data[b.tail] = c; b.tail++; if b.tail >= len(b.data) { b.tail = 0 }] *)
Definition put_byte (c : byte) : M unit :=
  b <- get ;;
  d <- check (store (data b) (tail b) c) ;;
  modify (set_data d) ;;;
  modify (fun b => set_tail (tail b + 1) b) ;;;
  b <- get ;;
  when (bool_decide (tail b >= len (data b))) (modify (set_tail 0)).

(** [c := b.data[b.head]; b.head++; if b.head >= len(b.data) { b.head = 0 }] *)
Definition get_byte : M byte :=
  b <- get ;;
  c <- check (index (data b) (head b)) ;;
  modify (fun b => set_head (head b + 1) b) ;;;
  b <- get ;;
  when (bool_decide (head b >= len (data b))) (modify (set_head 0)) ;;;
  ret c.

(** [Write], the block under "store the length of the packet". *)
Definition store_length (packet : list byte) : M unit :=
  put_byte (uint8 (Z.shiftr (len packet) 8)) ;;;
  put_byte (uint8 (len packet)).

(** [Write], the block under "store the packet". *)
Definition store_payload (packet : list byte) : M unit :=
  b <- get ;;
  r <- check (copy_at (data b) (tail b) packet) ;;
  let '(d, n) := r in
  modify (set_data d) ;;;
  modify (fun b => set_tail (tail b + n) b) ;;;
  b <- get ;;
  if decide (tail b >= len (data b)) then
    (* we reached the end, wrap around *)
    rest <- check (slice packet n (len packet)) ;;
    let '(d, m) := copy (data b) rest in
    modify (set_data d) ;;;
    modify (set_tail m)
  else ret tt.

(** [Write] *)
Definition Write (fuel : nat) (packet : list byte) : M (Z * option error) :=
  if decide (len packet >= 65536) then ret (0, Some ErrPacketTooBig)
  else
    Lock ;;;
    (* grow the buffer until the packet fits *)
    err <- grow_until fuel (len packet) ;;
    match err with
    | Some e => Unlock ;;; ret (0, Some e)
    | None =>
        store_length packet ;;;
        store_payload packet ;;;
        modify (fun b => set_count (count b + 1) b) ;;;
        Unlock ;;;
        ret (len packet, None)
    end.

(** [Read], the block under "decode the packet size". *)
Definition decode_size : M Z :=
  n1 <- get_byte ;;
  n2 <- get_byte ;;
  ret (Z.lor (uint16 (Z.shiftl (byteZ n1) 8)) (byteZ n2)).

(** [Read], the block under "copy the data": the new contents of the
    destination. *)
Definition copy_out (packet : list byte) (copied : Z) : M (list byte) :=
  b <- get ;;
  if decide (head b + copied < len (data b)) then
    src <- check (slice (data b) (head b) (head b + copied)) ;;
    ret (fst (copy packet src))
  else
    src1 <- check (slice (data b) (head b) (len (data b))) ;;
    let '(packet1, k) := copy packet src1 in
    src2 <- check (slice (data b) 0 (copied - k)) ;;
    r <- check (copy_at packet1 k src2) ;;
    ret (fst r).

(** [Read], the block under "advance head" with the reset of an emptied
    buffer that follows it. *)
Definition advance_head_by (count_ : Z) : M unit :=
  modify (fun b => set_head (head b + count_) b) ;;;
  b <- get ;;
  when (bool_decide (head b >= len (data b)))
    (modify (fun b => set_head (head b - len (data b)) b)) ;;;
  b <- get ;;
  when (bool_decide (head b = tail b))
    (* the buffer is empty, reset to beginning *)
    (modify (set_head 0) ;;; modify (set_tail 0)).

(** [Read].  The destination slice is the caller's, so its new contents
    are part of the result: [(n, err, packet)].  The return on a short
    destination leaves the mutex held and head where decoding put it. *)
Definition Read (packet : list byte) : M (Z * option error * list byte) :=
  Lock ;;;
  b <- get ;;
  if decide (head b <> tail b) then
    count_ <- decode_size ;;
    let copied := count_ in
    (* check if the packet is large enough to hold read data *)
    if decide (len packet < copied) then
      ret (0, Some (errors_New (short_buffer_msg count_)), packet)
    else
      packet' <- copy_out packet copied ;;
      advance_head_by count_ ;;;
      modify (fun b => set_count (count b - 1) b) ;;;
      Unlock ;;;
      ret (copied, None, packet')
  else
    Unlock ;;;
    ret (0, None, packet).

(** [Count] *)
Definition Count : M Z :=
  Lock ;;;
  b <- get ;;
  Unlock ;;;
  ret (count b).

(** [size] *)
Definition size (b : Buffer) : Z :=
  let size := tail b - head b in
  if decide (size < 0) then size + len (data b) else size.

(** [Size] *)
Definition Size : M Z :=
  Lock ;;;
  b <- get ;;
  Unlock ;;;
  ret (size b).

(** ** The queue an arena holds *)

(** The useful data of the arena, as the comment on [Buffer] gives it: the
    interval from head to tail, or the two intervals from head to the end
    and from the start to tail. *)
Definition livez (d : list byte) (h t : Z) : list byte :=
  if decide (h <= t)
  then take (Z.to_nat (t - h)) (drop (Z.to_nat h) d)
  else drop (Z.to_nat h) d ++ take (Z.to_nat t) d.

Definition live (b : Buffer) : list byte := livez (data b) (head b) (tail b).

(** [size] on the components. *)
Definition sizez (c h t : Z) : Z :=
  if decide (t - h < 0) then t - h + c else t - h.

(** A record of the arena: the two-byte big-endian length, then the
    payload. *)
Definition frame (p : list byte) : list byte :=
  uint8 (Z.shiftr (len p) 8) :: uint8 (len p) :: p.

(** The records of a queue of packets, oldest first. *)
Fixpoint flat (q : list (list byte)) : list byte :=
  match q with
  | [] => []
  | p :: q' => frame p ++ flat q'
  end.

(** The cursors are inside the arena; both are 0 while there is no arena. *)
Definition wf (b : Buffer) : Prop :=
  0 <= head b < Z.max 1 (len (data b)) /\
  0 <= tail b < Z.max 1 (len (data b)).

(** The buffer holds the packets q, oldest first. *)
Definition Rep (b : Buffer) (q : list (list byte)) : Prop :=
  wf b /\
  live b = flat q /\
  count b = len q /\
  Forall (fun p : list byte => len p < 65536) q.

(** The number of free bytes, as the description of [available] words it:
    head minus tail, plus the capacity when that difference is not
    positive. *)
Definition free_bytes (b : Buffer) : Z :=
  let raw := head b - tail b in
  if decide (raw <= 0) then raw + len (data b) else raw.

(** The sum of [2 + len(payload)] over a queue. *)
Fixpoint queued_bytes (q : list (list byte)) : Z :=
  match q with
  | [] => 0
  | p :: q' => (2 + len p) + queued_bytes q'
  end.

(** Both cursors are inside an arena that exists. *)
Definition in_range (b : Buffer) : Prop :=
  0 <= head b < len (data b) /\ 0 <= tail b < len (data b).

(** What a step that moves only tail and writes the arena keeps. *)
Definition tail_moved (b b' : Buffer) : Prop :=
  mutex b' = mutex b /\ head b' = head b /\ count b' = count b /\
  len (data b') = len (data b) /\ 0 <= tail b' < len (data b').

(** What a step that moves only head keeps. *)
Definition head_moved (b b' : Buffer) : Prop :=
  mutex b' = mutex b /\ tail b' = tail b /\ count b' = count b /\
  data b' = data b /\ 0 <= head b' < len (data b').

(** ** Sequences of calls *)

Inductive call : Type :=
  | CallWrite (packet : list byte)
  | CallRead (packet : list byte)
  | CallCount
  | CallSize.

Inductive result : Type :=
  | WriteResult (n : Z) (err : option error)
  | ReadResult (n : Z) (err : option error) (packet : list byte)
  | CountResult (n : Z)
  | SizeResult (n : Z).

Definition do_call (fuel : nat) (c : call) : M result :=
  match c with
  | CallWrite packet =>
      r <- Write fuel packet ;; ret (WriteResult (fst r) (snd r))
  | CallRead packet =>
      r <- Read packet ;; ret (ReadResult (fst (fst r)) (snd (fst r)) (snd r))
  | CallCount => n <- Count ;; ret (CountResult n)
  | CallSize => n <- Size ;; ret (SizeResult n)
  end.

Fixpoint run (fuel : nat) (cs : list call) : M (list result) :=
  match cs with
  | [] => ret []
  | c :: cs' =>
      r <- do_call fuel c ;;
      rs <- run fuel cs' ;;
      ret (r :: rs)
  end.

(** The states a buffer can be in: those some sequence of calls on a new
    buffer returns with. *)
Definition reachable (b : Buffer) : Prop :=
  exists (fuel : nat) (cs : list call) (rs : list result),
    run fuel cs NewBuffer = Returns rs b.

(** The packets queued after a sequence of calls whose Reads succeed: a
    Write of less than 65536 bytes adds its packet at the back, a Read
    takes the oldest one. *)
Definition queue_step (q : list (list byte)) (c : call) : list (list byte) :=
  match c with
  | CallWrite packet => if decide (len packet < 65536) then q ++ [packet] else q
  | CallRead _ => drop 1 q
  | CallCount | CallSize => q
  end.

Definition queued (cs : list call) : list (list byte) :=
  fold_left queue_step cs [].

(** No Read of the results failed. *)
Definition read_ok (r : result) : bool :=
  match r with
  | ReadResult _ (Some _) _ => false
  | _ => true
  end.

(** [n] growth steps on a capacity. *)
Fixpoint grown (n : nat) (cap : Z) : Z :=
  match n with
  | O => cap
  | S n' => grown n' (newsize_of cap)
  end.

(** The buffer some calls on a new buffer leave. *)
Definition state_after (fuel : nat) (cs : list call) : Buffer :=
  match run fuel cs NewBuffer with
  | Returns _ b => b
  | _ => NewBuffer
  end.

(** What a call returned, if it did. *)
Definition returned {A} (o : outcome A) : option A :=
  match o with
  | Returns a _ => Some a
  | _ => None
  end.

(** The mutex is free and the arena holds some queue of packets. *)
Definition consistent (b : Buffer) : Prop :=
  mutex b = false /\ exists q, Rep b q.

(** ** The scenario of the test *)

(** What a caller looks at in a result: of a Read, the bytes it was told
    were copied. *)
Definition observe (r : result) : result :=
  match r with
  | ReadResult n err packet => ReadResult n err (take (Z.to_nat n) packet)
  | _ => r
  end.

(** Write, Read, two Writes, Count, Size and three Reads, every Read into
    the same four-byte slice. *)
Definition scenario : outcome (list result) :=
  (let packet := [x00; x00; x00; x00] in
   r1 <- do_call 7 (CallWrite [x00; x01]) ;;
   r2 <- Read packet ;;
   let packet := snd r2 in
   r3 <- do_call 7 (CallWrite [x02; x03; x04]) ;;
   r4 <- do_call 7 (CallWrite [x05; x06; x07]) ;;
   r5 <- do_call 7 CallCount ;;
   r6 <- do_call 7 CallSize ;;
   r7 <- Read packet ;;
   let packet := snd r7 in
   r8 <- Read packet ;;
   let packet := snd r8 in
   r9 <- Read packet ;;
   ret [r1; ReadResult (fst (fst r2)) (snd (fst r2)) (snd r2); r3; r4; r5; r6;
        ReadResult (fst (fst r7)) (snd (fst r7)) (snd r7);
        ReadResult (fst (fst r8)) (snd (fst r8)) (snd r8);
        ReadResult (fst (fst r9)) (snd (fst r9)) (snd r9)]) NewBuffer.

(** What the scenario is to return, for a given value of [Size()]. *)
Definition scenario_results (size_value : Z) : list result :=
  [WriteResult 2 None; ReadResult 2 None [x00; x01];
   WriteResult 3 None; WriteResult 3 None;
   CountResult 2; SizeResult size_value;
   ReadResult 3 None [x02; x03; x04]; ReadResult 3 None [x05; x06; x07];
   ReadResult 0 None []].

(** ** The queue as a caller sees it *)

(** What a call returns and the packets it leaves, told on the list of the
    queued packets alone.  A Read into a destination shorter than the
    packet at the front has no answer here: it leaves the buffer of the code
    locked. *)
Definition model_call (q : list (list byte)) (c : call)
  : option (result * list (list byte)) :=
  match c with
  | CallWrite packet =>
      if decide (len packet >= 65536)
      then Some (WriteResult 0 (Some ErrPacketTooBig), q)
      else Some (WriteResult (len packet) None, q ++ [packet])
  | CallRead packet =>
      match q with
      | [] => Some (ReadResult 0 None packet, [])
      | p :: q' =>
          if decide (len packet < len p) then None
          else Some (ReadResult (len p) None (p ++ drop (length p) packet), q')
      end
  | CallCount => Some (CountResult (len q), q)
  | CallSize => Some (SizeResult (queued_bytes q), q)
  end.

Fixpoint model_run (q : list (list byte)) (cs : list call)
  : option (list result * list (list byte)) :=
  match cs with
  | [] => Some ([], q)
  | c :: cs' =>
      match model_call q c with
      | Some (r, q1) =>
          match model_run q1 cs' with
          | Some (rs, q2) => Some (r :: rs, q2)
          | None => None
          end
      | None => None
      end
  end.

(** ** Package list: the queue on [container/list] *)

Module PktList.

(** A [[]byte] as the caller holds it: a window on an array.  This package
    keeps the slices it is given, so the arrays are modelled too. *)
Record slice : Type := mkSlice { arr : nat; off : nat; slen : nat }.

(** The arrays, by address. *)
Definition heap : Type := list (list byte).

Definition array (h : heap) (a : nat) : list byte := default [] (h !! a).

(** The bytes a slice shows. *)
Definition bytes (h : heap) (s : slice) : list byte :=
  take (slen s) (drop (off s) (array h (arr s))).

(** The slice lies inside an array of the heap. *)
Definition valid (h : heap) (s : slice) : Prop :=
  (arr s < length h)%nat /\ (off s + slen s <= length (array h (arr s)))%nat.

(** [copy(dst, src)]: the source bytes are read before any is written, as
    Go does when the two overlap. *)
Definition copy (h : heap) (dst src : slice) : heap * Z :=
  let n := Nat.min (slen dst) (slen src) in
  let a := array h (arr dst) in
  (<[arr dst := take (off dst) a ++ take n (bytes h src) ++ drop (off dst + n) a]> h,
   Z.of_nat n).

(** [ErrPacketTooBig] of this package. *)
Inductive error : Type := ErrPacketTooBig.

(** [pktqueue] holds the [*Packet]s front first; a [Packet] is its payload
    slice. *)
Record Buffer : Type := mkBuffer {
  mutex : bool;
  pktqueue : list slice;
  count : Z;
  buffersize : Z
}.

Definition set_mutex (m : bool) (b : Buffer) : Buffer :=
  mkBuffer m (pktqueue b) (count b) (buffersize b).
Definition set_pktqueue (q : list slice) (b : Buffer) : Buffer :=
  mkBuffer (mutex b) q (count b) (buffersize b).
Definition set_count (c : Z) (b : Buffer) : Buffer :=
  mkBuffer (mutex b) (pktqueue b) c (buffersize b).
Definition set_buffersize (s : Z) (b : Buffer) : Buffer :=
  mkBuffer (mutex b) (pktqueue b) (count b) s.

(** The memory and the buffer. *)
Record world : Type := mkWorld { mem : heap; buf : Buffer }.

Inductive outcome (A : Type) : Type :=
  | Returns (a : A) (w : world)
  | Panics
  | Blocks.
Arguments Returns {A} a w.
Arguments Panics {A}.
Arguments Blocks {A}.

Definition M (A : Type) : Type := world -> outcome A.

Definition ret {A} (a : A) : M A := fun w => Returns a w.

Definition bind {A B} (m : M A) (k : A -> M B) : M B :=
  fun w =>
    match m w with
    | Returns a w' => k a w'
    | Panics => Panics
    | Blocks => Blocks
    end.

Declare Scope pktlist_scope.
Delimit Scope pktlist_scope with pktlist.
Notation "x <- m ;; k" := (bind m (fun x => k))
  (at level 100, m at level 99, k at level 200, right associativity)
  : pktlist_scope.
Notation "m ;;; k" := (bind m (fun _ => k))
  (at level 100, k at level 200, right associativity) : pktlist_scope.
Local Open Scope pktlist_scope.

Definition get : M Buffer := fun w => Returns (buf w) w.
Definition modify (f : Buffer -> Buffer) : M unit :=
  fun w => Returns tt (mkWorld (mem w) (f (buf w))).

(** [b.mutex.Lock()] *)
Definition Lock : M unit :=
  fun w => if mutex (buf w) then Blocks
           else Returns tt (mkWorld (mem w) (set_mutex true (buf w))).

(** [b.mutex.Unlock()] *)
Definition Unlock : M unit :=
  fun w => if mutex (buf w)
           then Returns tt (mkWorld (mem w) (set_mutex false (buf w)))
           else Panics.

(** [NewBuffer] *)
Definition NewBuffer : Buffer := mkBuffer false [] 0 0.

(** [Write]: the packet pushed at the back is the caller's slice. *)
Definition Write (packet : slice) : M (Z * option error) :=
  if decide (Z.of_nat (slen packet) >= 65536) then ret (0, Some ErrPacketTooBig)
  else
    Lock ;;;
    modify (fun b => set_pktqueue (pktqueue b ++ [packet]) b) ;;;
    let pktlen := Z.of_nat (slen packet) in
    modify (fun b => set_buffersize (buffersize b + pktlen) b) ;;;
    modify (fun b => set_count (count b + 1) b) ;;;
    Unlock ;;;
    ret (pktlen, None).

(** [copy(dst, src)] on the memory. *)
Definition copy_mem (dst src : slice) : M Z :=
  fun w => Returns (snd (copy (mem w) dst src))
             (mkWorld (fst (copy (mem w) dst src)) (buf w)).

(** [Read]: [Front()] is the head of the queue, [Remove] leaves its
    rest. *)
Definition Read (packet : slice) : M (Z * option error) :=
  Lock ;;;
  b <- get ;;
  match pktqueue b with
  | payload :: rest =>
      copy_mem packet payload ;;;
      modify (fun b => set_count (count b - 1) b) ;;;
      let pktlen := Z.of_nat (slen payload) in
      modify (fun b => set_buffersize (buffersize b - pktlen) b) ;;;
      modify (set_pktqueue rest) ;;;
      Unlock ;;;
      ret (pktlen, None)
  | [] =>
      Unlock ;;;
      ret (0, None)
  end.

(** [Count] *)
Definition Count : M Z :=
  Lock ;;;
  b <- get ;;
  Unlock ;;;
  ret (count b).

(** [size] *)
Definition size (b : Buffer) : Z := buffersize b.

(** [Size] *)
Definition Size : M Z :=
  Lock ;;;
  b <- get ;;
  Unlock ;;;
  ret (size b).

(** A call on the buffer, or a store [a[i] = c] of the caller into one of
    its arrays between two calls. *)
Inductive call : Type :=
  | CallWrite (packet : slice)
  | CallRead (packet : slice)
  | CallCount
  | CallSize
  | CallerStore (a i : nat) (c : byte).

(** A Read's result carries the bytes its destination shows after it. *)
Inductive result : Type :=
  | WriteResult (n : Z) (err : option error)
  | ReadResult (n : Z) (err : option error) (packet : list byte)
  | CountResult (n : Z)
  | SizeResult (n : Z)
  | Stored.

Definition do_call (c : call) : M result :=
  match c with
  | CallWrite packet => r <- Write packet ;; ret (WriteResult (fst r) (snd r))
  | CallRead packet =>
      r <- Read packet ;;
      fun w => Returns (ReadResult (fst r) (snd r) (bytes (mem w) packet)) w
  | CallCount => n <- Count ;; ret (CountResult n)
  | CallSize => n <- Size ;; ret (SizeResult n)
  | CallerStore a i c =>
      fun w => Returns Stored
                 (mkWorld (<[a := <[i := c]> (array (mem w) a)]> (mem w)) (buf w))
  end.

Fixpoint run (cs : list call) : M (list result) :=
  match cs with
  | [] => ret []
  | c :: cs' => r <- do_call c ;; rs <- run cs' ;; ret (r :: rs)
  end.

(** The slices queued after some calls. *)
Definition queue_step (q : list slice) (c : call) : list slice :=
  match c with
  | CallWrite packet =>
      if decide (Z.of_nat (slen packet) < 65536) then q ++ [packet] else q
  | CallRead _ => drop 1 q
  | _ => q
  end.

(** The sum of the payload lengths of a queue. *)
Fixpoint payload_bytes (q : list slice) : Z :=
  match q with
  | [] => 0
  | s :: q' => Z.of_nat (slen s) + payload_bytes q'
  end.

(** What a call returns, but for the bytes a Read copies: that depends on
    the queue alone. *)
Definition model_call (q : list slice) (c : call) : Z * option error :=
  match c with
  | CallWrite packet =>
      if decide (Z.of_nat (slen packet) < 65536)
      then (Z.of_nat (slen packet), None) else (0, Some ErrPacketTooBig)
  | CallRead _ =>
      match q with
      | [] => (0, None)
      | s :: _ => (Z.of_nat (slen s), None)
      end
  | CallCount => (Z.of_nat (length q), None)
  | CallSize => (payload_bytes q, None)
  | CallerStore _ _ _ => (0, None)
  end.

Definition outline (r : result) : Z * option error :=
  match r with
  | WriteResult n err => (n, err)
  | ReadResult n err _ => (n, err)
  | CountResult n => (n, None)
  | SizeResult n => (n, None)
  | Stored => (0, None)
  end.

(** What the calls return, but for the bytes the Reads copy. *)
Fixpoint model_run (q : list slice) (cs : list call) : list (Z * option error) :=
  match cs with
  | [] => []
  | c :: cs' => model_call q c :: model_run (queue_step q c) cs'
  end.

(** What a caller looks at in a result: of a Read, the bytes it was told
    were copied. *)
Definition observe (r : result) : result :=
  match r with
  | ReadResult n err packet => ReadResult n err (take (Z.to_nat n) packet)
  | _ => r
  end.

(** The buffer holds the queue q with its accounts in order. *)
Definition holds (b : Buffer) (q : list slice) : Prop :=
  mutex b = false /\ pktqueue b = q /\
  count b = Z.of_nat (length q) /\ buffersize b = payload_bytes q.

End PktList.

(** * Properties *)

(** ** Bytes and the two-byte length header *)

Lemma byteZ_range c : 0 <= byteZ c < 256.
Proof.
  unfold byteZ. pose proof (Byte.to_N_bounded c). lia.
Qed.

Lemma byteZ_uint8 x : byteZ (uint8 x) = x mod 256.
Proof.
  unfold byteZ, uint8.
  assert (Hr : 0 <= x mod 256 < 256) by (apply Z.mod_pos_bound; lia).
  destruct (Byte.of_N (Z.to_N (x mod 256))) as [c|] eqn:E.
  - apply Byte.to_of_N in E. rewrite E. lia.
  - apply Byte.of_N_None_iff in E. lia.
Qed.

(** Decoding the header [Write] stores gives back the length. *)
Lemma header_decode n :
  0 <= n < 65536 ->
  Z.lor (uint16 (Z.shiftl (byteZ (uint8 (Z.shiftr n 8))) 8))
        (byteZ (uint8 n)) = n.
Proof.
  intros Hn. rewrite !byteZ_uint8. unfold uint16.
  change 256 with (2 ^ 8). change 65536 with (2 ^ 16) in *.
  apply Z.bits_inj'. intros i Hi.
  rewrite Z.lor_spec, !Z.testbit_mod_pow2 by lia.
  rewrite Z.shiftl_spec by lia.
  destruct (Z.ltb_spec i 8) as [H8|H8]; simpl.
  - rewrite (Z.testbit_neg_r _ (i - 8)) by lia.
    rewrite andb_false_r. reflexivity.
  - rewrite orb_false_r.
    rewrite Z.testbit_mod_pow2, Z.shiftr_spec by lia.
    replace (i - 8 + 8) with i by lia.
    destruct (Z.ltb_spec i 16) as [H16|H16]; simpl.
    + destruct (Z.ltb_spec (i - 8) 8); [reflexivity | lia].
    + symmetry.
      destruct (Z.eq_dec n 0) as [->|Hz]; [apply Z.bits_0 |].
      apply Z.bits_above_log2; [lia |].
      apply Z.log2_lt_pow2; [lia |].
      pose proof (Z.pow_le_mono_r 2 16 i). lia.
Qed.

(** ** Lists read position by position *)

Section pointwise.
Context {A : Type}.
Implicit Types l k : list A.

Lemma lookup_app_if l k (i : nat) :
  (l ++ k) !! i =
  if decide (i < length l)%nat then l !! i else k !! (i - length l)%nat.
Proof.
  case_decide.
  - apply lookup_app_l. assumption.
  - apply lookup_app_r. lia.
Qed.

Lemma lookup_replicate_if (n i : nat) (x : A) :
  replicate n x !! i = if decide (i < n)%nat then Some x else None.
Proof.
  case_decide.
  - apply lookup_replicate_2. assumption.
  - apply lookup_replicate_None. lia.
Qed.

Lemma lookup_singleton_if (x : A) (i : nat) :
  [x] !! i = if decide (i = 0)%nat then Some x else None.
Proof. destruct i as [|i]; [reflexivity | destruct i; reflexivity]. Qed.

Lemma list_eq_len l k :
  length l = length k ->
  (forall i : nat, (i < length l)%nat -> l !! i = k !! i) ->
  l = k.
Proof.
  intros Hlen Hpt. apply list_eq. intros i.
  destruct (decide (i < length l)%nat) as [Hi|Hi]; [auto |].
  rewrite !lookup_ge_None_2 by lia. reflexivity.
Qed.
End pointwise.

(** ** Tactics *)

Ltac lens :=
  repeat first
    [ rewrite length_app | rewrite length_take | rewrite length_drop
    | rewrite length_insert | rewrite length_replicate
    | rewrite length_cons | rewrite length_nil ].

Ltac lens_in H :=
  repeat first
    [ rewrite length_app in H | rewrite length_take in H
    | rewrite length_drop in H | rewrite length_insert in H
    | rewrite length_replicate in H
    | rewrite length_cons in H | rewrite length_nil in H ].

(** One layer of a lookup in a list built from [++], [take], [drop],
    [<[_:=_]>], [replicate] and singletons. *)
Ltac lookup_step :=
  first
    [ rewrite lookup_app_if
    | rewrite lookup_take
    | rewrite lookup_drop
    | rewrite list_lookup_insert
    | rewrite lookup_replicate_if
    | rewrite lookup_singleton_if ];
  lens.

Ltac index_eq :=
  match goal with
  | |- ?l !! ?i = ?l !! ?j => f_equal; lia
  | H : ?l !! _ = Some ?x |- ?l !! _ = Some ?x => rewrite <- H; f_equal; lia
  | H : ?l !! _ = Some ?x |- Some ?x = ?l !! _ => rewrite <- H; f_equal; lia
  | |- Some ?x = Some ?x => reflexivity
  | |- None = None => reflexivity
  | |- ?l !! _ = None => apply lookup_ge_None_2; lens; lia
  | |- None = ?l !! _ => symmetry; apply lookup_ge_None_2; lens; lia
  end.

Ltac pointwise :=
  repeat (first [ lookup_step | case_decide; try lia ]);
  try index_eq.

(** Drop the [take]s and [drop]s that do nothing. *)
Ltac trim :=
  repeat first
    [ rewrite Nat.sub_0_r
    | rewrite drop_0
    | rewrite Nat.min_id
    | rewrite take_take
    | rewrite drop_drop
    | match goal with
      | |- context [Nat.min ?a ?b] =>
          first [ rewrite (Nat.min_l a b) by lia
                | rewrite (Nat.min_r a b) by lia ]
      | |- context [drop ?n ?l] => rewrite (drop_ge l n) by (lens; lia)
      | |- context [take ?n ?l] => rewrite (take_ge l n) by (lens; lia)
      end
    | rewrite app_nil_r
    | rewrite app_nil_l ].

Ltac by_lookup :=
  trim;
  apply list_eq_len; [lens; lia | intros ?i ?Hi; lens_in Hi; pointwise].

(** A non-negative integer as the natural number it is. *)
Ltac nat_pos x :=
  let x' := fresh x in
  destruct (Z_of_nat_complete x ltac:(lia)) as [x' ->].

Ltac mins :=
  repeat match goal with
  | |- context [Nat.min ?a ?b] =>
      first [ rewrite (Nat.min_l a b) by lia | rewrite (Nat.min_r a b) by lia ]
  end.

Ltac goal_decide H :=
  match goal with
  | |- context [decide ?P] => destruct (decide P) as [H|H]
  end.

Ltac fields :=
  cbn [mutex data head tail count set_mutex set_data set_head set_tail
       set_count fst snd] in *.

Ltac msimpl :=
  unfold bind, ret, get, modify, when, check, panic;
  cbn [mutex data head tail count set_mutex set_data set_head set_tail
       set_count fst snd].

(** ** The live bytes of the arena *)

Lemma length_livez d h t :
  0 <= h <= len d -> 0 <= t <= len d ->
  length (livez d h t) = Z.to_nat (sizez (len d) h t).
Proof.
  unfold livez, sizez, len. intros Hh Ht.
  repeat case_decide; lens; lia.
Qed.

(** Storing one byte at tail and advancing tail appends it to the live
    bytes. *)
Lemma livez_push1 d h t x :
  0 <= h < len d -> 0 <= t < len d -> sizez (len d) h t + 1 < len d ->
  livez (<[Z.to_nat t := x]> d) h (if decide (t + 1 >= len d) then 0 else t + 1)
  = livez d h t ++ [x].
Proof.
  unfold livez, sizez, len. intros Hh Ht Hs.
  repeat case_decide; try lia; by_lookup.
Qed.

Lemma livez_nat d (h t : nat) :
  livez d (Z.of_nat h) (Z.of_nat t) =
  if decide (h <= t)%nat then take (t - h) (drop h d)
  else drop h d ++ take t d.
Proof.
  unfold livez. rewrite !Nat2Z.id.
  replace (Z.to_nat (Z.of_nat t - Z.of_nat h)) with (t - h)%nat by lia.
  repeat case_decide; try lia; reflexivity.
Qed.

Lemma size_live b : in_range b -> size b = len (live b).
Proof.
  destruct b as [mu d h t n]. unfold in_range, size, live, len.
  cbn [data head tail]. intros [Hh Ht].
  pose proof (length_livez d h t) as Hl. unfold sizez, len in Hl.
  rewrite Hl by lia. repeat case_decide; lia.
Qed.

(** ** The steps of Write *)

Lemma bind_Returns {A B} (m : M A) (k : A -> M B) b a b' :
  m b = Returns a b' -> bind m k b = k a b'.
Proof. unfold bind. intros ->. reflexivity. Qed.

Lemma put_byte_ok c b :
  in_range b -> len (live b) + 1 < len (data b) ->
  exists b', put_byte c b = Returns tt b' /\
    live b' = live b ++ [c] /\ tail_moved b b'.
Proof.
  intros Hr Hroom. rewrite <- size_live in Hroom by assumption.
  destruct b as [mu d h t n].
  unfold in_range, size, live, tail_moved in *. fields.
  destruct Hr as [Hh Ht].
  unfold put_byte, store. msimpl. rewrite decide_True by lia. msimpl.
  pose proof (livez_push1 d h t c Hh Ht) as Hpush. unfold sizez in Hpush.
  unfold len in *. rewrite length_insert.
  case_bool_decide; eexists; (split; [reflexivity |]); fields;
    rewrite ?length_insert;
    (split; [| repeat split; first [reflexivity | lia]]).
  - rewrite <- Hpush by lia. rewrite decide_True by lia. reflexivity.
  - rewrite <- Hpush by lia. rewrite decide_False by lia. reflexivity.
Qed.
(** ** Go slice operations at natural-number positions *)

Lemma index_nat s (i : nat) :
  (i < length s)%nat -> index s (Z.of_nat i) = s !! i.
Proof.
  intros Hi. unfold index, len. rewrite decide_True by lia.
  rewrite Nat2Z.id. reflexivity.
Qed.

Lemma store_nat s (i : nat) c :
  (i < length s)%nat -> store s (Z.of_nat i) c = Some (<[i := c]> s).
Proof.
  intros Hi. unfold store, len. rewrite decide_True by lia.
  rewrite Nat2Z.id. reflexivity.
Qed.

Lemma slice_nat s (lo hi : nat) :
  (lo <= hi <= length s)%nat ->
  slice s (Z.of_nat lo) (Z.of_nat hi) = Some (take (hi - lo) (drop lo s)).
Proof.
  intros Hi. unfold slice, len. rewrite decide_True by lia.
  rewrite <- Nat2Z.inj_sub, !Nat2Z.id by lia. reflexivity.
Qed.

Lemma copy_nat dst src :
  copy dst src =
  (take (length dst) src ++ drop (length src) dst,
   Z.of_nat (length dst `min` length src)).
Proof.
  unfold copy, len. rewrite <- Nat2Z.inj_min, Nat2Z.id. f_equal.
  destruct (decide (length dst <= length src)%nat) as [Hle|Hle].
  - rewrite Nat.min_l by lia. rewrite (drop_ge dst (length src)) by lia.
    rewrite drop_all. reflexivity.
  - rewrite Nat.min_r by lia. rewrite (take_ge src (length dst)) by lia.
    rewrite firstn_all. reflexivity.
Qed.

Lemma copy_at_nat dst (lo : nat) src :
  (lo <= length dst)%nat ->
  copy_at dst (Z.of_nat lo) src =
  Some (take lo dst ++ take (length dst - lo) src ++ drop (lo + length src) dst,
        Z.of_nat ((length dst - lo) `min` length src)).
Proof.
  intros Hlo. unfold copy_at.
  change (len dst) with (Z.of_nat (length dst)).
  rewrite slice_nat by lia. rewrite copy_nat. rewrite Nat2Z.id. lens.
  rewrite (take_ge (drop lo dst)) by (lens; lia).
  rewrite drop_drop. rewrite Nat.min_id. reflexivity.
Qed.

Lemma store_payload_ok p b :
  in_range b -> len (live b) + len p < len (data b) ->
  exists b', store_payload p b = Returns tt b' /\
    live b' = live b ++ p /\ tail_moved b b'.
Proof.
  intros Hr Hroom. rewrite <- size_live in Hroom by assumption.
  destruct b as [mu d h t n].
  unfold in_range, size, live, tail_moved in *. fields.
  destruct Hr as [Hh Ht]. unfold len in *.
  nat_pos h. nat_pos t.
  assert (Hroom' : (h0 <= t0 /\ t0 - h0 + length p < length d \/
                    t0 < h0 /\ t0 + length p < h0)%nat)
    by (case_decide; lia).
  clear Hroom.
  unfold store_payload. msimpl.
  rewrite copy_at_nat by lia. msimpl.
  rewrite <- Nat2Z.inj_add. unfold len. lens.
  goal_decide Hw.
  - change (Z.of_nat (length p)) with (len p).
    unfold len. rewrite slice_nat by lia. msimpl. rewrite copy_nat.
    eexists; split; [reflexivity |]. fields. lens.
    assert (Hw' : (length d <= t0 + length p)%nat) by lia; clear Hw. mins.
    split; [| repeat split; first [reflexivity | lia]].
    rewrite !livez_nat.
    repeat case_decide; try lia.
    all: by_lookup.
  - eexists; split; [reflexivity |]. fields. lens.
    assert (Hw' : (t0 + length p < length d)%nat) by lia; clear Hw. mins.
    split; [| repeat split; first [reflexivity | lia]].
    rewrite !livez_nat.
    repeat case_decide; try lia.
    all: by_lookup.
Qed.
(** ** The steps of Read *)

Lemma livez_pop1 d (h t : nat) :
  (h < length d)%nat -> (t < length d)%nat -> h <> t ->
  exists x, d !! h = Some x /\
    livez d (Z.of_nat h) (Z.of_nat t) =
    [x] ++ livez d (Z.of_nat (if decide (S h = length d) then 0 else S h))
                 (Z.of_nat t).
Proof.
  intros Hh Ht Hne.
  destruct (lookup_lt_is_Some_2 d h Hh) as [x Hx]. exists x. split; [exact Hx |].
  rewrite !livez_nat.
  repeat case_decide; try lia; by_lookup.
Qed.

Lemma get_byte_ok b c L :
  in_range b -> live b = c :: L ->
  exists b', get_byte b = Returns c b' /\ live b' = L /\ head_moved b b'.
Proof.
  intros Hr Hlive.
  destruct b as [mu d h t n].
  unfold in_range, live, head_moved in *. fields.
  destruct Hr as [Hh Ht]. unfold len in *.
  nat_pos h. nat_pos t.
  assert (Hne : h0 <> t0).
  { intros ->. rewrite livez_nat in Hlive. rewrite decide_True in Hlive by lia.
    rewrite Nat.sub_diag in Hlive. discriminate. }
  destruct (livez_pop1 d h0 t0 ltac:(lia) ltac:(lia) Hne) as (x & Hx & Hl).
  rewrite Hl in Hlive. injection Hlive as -> HL.
  unfold get_byte. msimpl. rewrite index_nat by lia. rewrite Hx. msimpl.
  unfold len.
  case_bool_decide; eexists; (split; [reflexivity |]); fields;
    (split; [| repeat split; first [reflexivity | lia]]).
  - rewrite <- HL. rewrite decide_True by lia. reflexivity.
  - rewrite <- HL. rewrite decide_False by lia. f_equal. lia.
Qed.
Lemma copy_out_ok packet (m : nat) b :
  in_range b -> (m <= length (live b))%nat -> (m <= length packet)%nat ->
  copy_out packet (Z.of_nat m) b
  = Returns (take m (live b) ++ drop m packet) b.
Proof.
  intros Hr Hm Hp.
  destruct b as [mu d h t n].
  unfold in_range, live in *. fields.
  destruct Hr as [Hh Ht]. unfold len in *.
  nat_pos h. nat_pos t.
  rewrite livez_nat in *.
  unfold copy_out. msimpl. unfold len. rewrite <- Nat2Z.inj_add.
  goal_decide Hw.
  - rewrite slice_nat by lia. msimpl. rewrite copy_nat. fields.
    f_equal. lens.
    replace (h0 + m - h0)%nat with m by lia.
    revert Hm. case_decide; lens; intros Hm.
    + replace ((m `min` (length d - h0)))%nat with m by lia.
      f_equal. by_lookup.
    + replace ((m `min` (length d - h0)))%nat with m by lia.
      f_equal. by_lookup.
  - rewrite slice_nat by lia. msimpl. rewrite copy_nat. msimpl.
    replace (Z.of_nat m - _) with (Z.of_nat (m - (length d - h0))).
    2:{ lens. lia. }
    change 0 with (Z.of_nat 0). rewrite slice_nat.
    2:{ revert Hm. case_decide; lens; lia. }
    msimpl. rewrite copy_at_nat by (lens; lia). fields.
    f_equal. revert Hm. lens. case_decide; lens; intros Hm; [lia |].
    by_lookup.
Qed.

Lemma advance_head_by_ok (m : nat) b :
  in_range b -> (m <= length (live b))%nat ->
  exists b', advance_head_by (Z.of_nat m) b = Returns tt b' /\
    live b' = drop m (live b) /\
    mutex b' = mutex b /\ count b' = count b /\ data b' = data b /\
    in_range b'.
Proof.
  intros Hr Hm.
  destruct b as [mu d h t n].
  unfold in_range, live in *. fields.
  destruct Hr as [Hh Ht]. unfold len in *.
  nat_pos h. nat_pos t.
  rewrite livez_nat in *.
  unfold advance_head_by. msimpl. unfold len.
  revert Hm. case_decide; lens; intros Hm.
  - rewrite bool_decide_false by lia. msimpl.
    case_bool_decide; msimpl; eexists; (split; [reflexivity |]); fields;
      (split; [| repeat split; first [reflexivity | lia]]).
    + change 0 with (Z.of_nat 0). rewrite livez_nat. rewrite decide_True by lia.
      by_lookup.
    + rewrite <- Nat2Z.inj_add. rewrite livez_nat. rewrite decide_True by lia.
      by_lookup.
  - case_bool_decide; msimpl.
    + replace (Z.of_nat h0 + Z.of_nat m - Z.of_nat (length d))
        with (Z.of_nat (h0 + m - length d)) by lia.
      case_bool_decide; msimpl; eexists; (split; [reflexivity |]); fields;
        (split; [| repeat split; first [reflexivity | lia]]).
      * change 0 with (Z.of_nat 0). rewrite livez_nat.
        rewrite decide_True by lia. by_lookup.
      * rewrite livez_nat. rewrite decide_True by lia. by_lookup.
    + rewrite <- Nat2Z.inj_add.
      case_bool_decide; msimpl; eexists; (split; [reflexivity |]); fields;
        (split; [| repeat split; first [reflexivity | lia]]).
      * lia.
      * rewrite livez_nat. rewrite decide_False by lia. by_lookup.
Qed.
(** ** Growth *)

Lemma newsize_of_bounds c :
  0 <= c -> c < newsize_of c /\ minSize <= newsize_of c.
Proof.
  intros Hc. unfold newsize_of, minSize, cutoffSize.
  repeat case_decide; Z.div_mod_to_equations; lia.
Qed.

(** Growth stays within [int] for every arena of up to [2^60] bytes. *)
Lemma newsize_of_in_int c :
  0 <= c <= 2 ^ 60 ->
  2 * c <= max_int /\ 5 * c <= max_int /\ newsize_of c <= max_int.
Proof.
  intros Hc. unfold newsize_of, max_int, minSize, cutoffSize.
  change (2 ^ 60) with 1152921504606846976 in Hc.
  change (2 ^ 63) with 9223372036854775808.
  repeat case_decide; Z.div_mod_to_equations; lia.
Qed.

Lemma grow_ok b :
  wf b ->
  exists b', grow b = Returns None b' /\
    live b' = live b /\ head b' = 0 /\ tail b' = size b /\
    len (data b') = newsize_of (len (data b)) /\
    count b' = count b /\ mutex b' = mutex b /\
    take (Z.to_nat (size b)) (data b') = live b /\ in_range b'.
Proof.
  intros [Hh Ht].
  destruct b as [mu d h t n].
  unfold in_range, live, size in *. fields.
  pose proof (newsize_of_bounds (len d) ltac:(unfold len; lia)) as [Hgt Hmin].
  unfold minSize in Hmin.
  unfold grow, make. msimpl. rewrite decide_True by lia. msimpl.
  unfold len in *. lens.
  set (N := newsize_of (Z.of_nat (length d))) in *.
  destruct (Z_of_nat_complete N ltac:(lia)) as [N' HN]. rewrite HN in *.
  clearbody N. clear HN N. rewrite Nat2Z.id.
  nat_pos h. nat_pos t.
  goal_decide Hc.
  - rewrite slice_nat by lia. msimpl. rewrite copy_nat. msimpl.
    eexists; split; [reflexivity |]. fields. lens.
    rewrite decide_False by lia.
    change 0 with (Z.of_nat 0).
    replace (Z.of_nat t0 - Z.of_nat h0) with (Z.of_nat (t0 - h0)) by lia.
    rewrite !livez_nat, Nat2Z.id. rewrite !decide_True by lia.
    repeat split; try lia.
    all: assert (Hh' : (h0 <= t0 /\ t0 <= length d)%nat) by lia.
    all: assert (HN' : (length d < N')%nat) by lia.
    all: clear Hh Ht Hgt Hmin Hc.
    + by_lookup.
    + by_lookup.
  - change (Z.of_nat (length d)) with (len d). unfold len.
    rewrite slice_nat by lia. msimpl. rewrite copy_nat. msimpl.
    change 0 with (Z.of_nat 0). rewrite slice_nat by lia. msimpl.
    rewrite copy_at_nat by (lens; lia). msimpl.
    eexists; split; [reflexivity |]. fields. lens.
    rewrite decide_True by lia.
    rewrite <- Nat2Z.inj_add.
    replace (Z.of_nat t0 - Z.of_nat h0 + Z.of_nat (length d))
      with (Z.of_nat (t0 + length d - h0)) by lia.
    rewrite Nat2Z.id.
    replace (N' `min` (length d - h0) +
             (N' `min` (length d - h0 - 0) + (N' - (length d - h0 - 0)) -
              N' `min` (length d - h0)) `min` (t0 - 0 `min` (length d - 0)))%nat
      with (t0 + length d - h0)%nat by lia.
    change (Z.of_nat 0%nat) with 0.
    change 0 with (Z.of_nat 0) at 1 2.
    rewrite !livez_nat. rewrite decide_True by lia. rewrite decide_False by lia.
    repeat split; try lia.
    all: assert (Hh' : (t0 < h0 < length d)%nat) by lia.
    all: assert (HN' : (length d < N')%nat) by lia.
    all: clear Hh Ht Hgt Hmin Hc.
    + by_lookup.
    + by_lookup.
Qed.
Lemma free_bytes_size b : free_bytes b = len (data b) - size b.
Proof. unfold free_bytes, size. repeat case_decide; lia. Qed.

Lemma wrap_int_id x : min_int <= x <= max_int -> wrap_int x = x.
Proof.
  unfold wrap_int, min_int, max_int. intros Hx.
  rewrite Z.mod_small by lia. lia.
Qed.

Lemma available_iff need b :
  available need b = true <-> need + 2 + 1 <= free_bytes b.
Proof.
  unfold available, free_bytes. cbv zeta.
  repeat case_decide; split; intros; try lia; try discriminate; reflexivity.
Qed.

Lemma in_range_wf b : in_range b -> wf b.
Proof. unfold in_range, wf. lia. Qed.

Lemma wf_size b : wf b -> 0 <= size b /\ size b < Z.max 1 (len (data b)).
Proof. unfold wf, size. intros. case_decide; lia. Qed.

Lemma grown_add n m c : grown (n + m) c = grown m (grown n c).
Proof.
  revert c. induction n as [|n IH]; intros c; [reflexivity |].
  simpl. apply IH.
Qed.

Lemma grown_ge n c : 0 <= c -> c <= grown n c.
Proof.
  revert c. induction n as [|n IH]; intros c Hc; simpl; [lia |].
  pose proof (newsize_of_bounds c Hc). specialize (IH (newsize_of c)). lia.
Qed.

Lemma newsize_of_lower c :
  0 <= c ->
  c < newsize_of c /\ 2048 <= newsize_of c /\
  (c < 131072 -> 2 * c <= newsize_of c) /\
  (131072 <= c -> c + 32768 <= newsize_of c).
Proof.
  intros Hc. unfold newsize_of, minSize, cutoffSize.
  repeat case_decide; Z.div_mod_to_equations; lia.
Qed.

Lemma grown_7 c : 0 <= c -> Z.max 1 c + 65537 <= grown 7 c.
Proof.
  intros Hc. simpl.
  set (c1 := newsize_of c). pose proof (newsize_of_lower c Hc) as H1. fold c1 in H1.
  set (c2 := newsize_of c1) in *.
  pose proof (newsize_of_lower c1 ltac:(lia)) as H2. fold c2 in H2.
  set (c3 := newsize_of c2) in *.
  pose proof (newsize_of_lower c2 ltac:(lia)) as H3. fold c3 in H3.
  set (c4 := newsize_of c3) in *.
  pose proof (newsize_of_lower c3 ltac:(lia)) as H4. fold c4 in H4.
  set (c5 := newsize_of c4) in *.
  pose proof (newsize_of_lower c4 ltac:(lia)) as H5. fold c5 in H5.
  set (c6 := newsize_of c5) in *.
  pose proof (newsize_of_lower c5 ltac:(lia)) as H6. fold c6 in H6.
  set (c7 := newsize_of c6) in *.
  pose proof (newsize_of_lower c6 ltac:(lia)) as H7. fold c7 in H7.
  clearbody c1 c2 c3 c4 c5 c6 c7. lia.
Qed.

Lemma grown_enough n c :
  (7 <= n)%nat -> 0 <= c -> Z.max 1 c + 65537 <= grown n c.
Proof.
  intros Hn Hc. replace n with ((n - 7) + 7)%nat by lia.
  rewrite grown_add.
  pose proof (grown_ge (n - 7) c Hc).
  pose proof (grown_7 (grown (n - 7) c) ltac:(lia)). lia.
Qed.

(** The growth loop ends as soon as the capacity less the live bytes
    leaves room for the packet, its header and the reserved byte. *)
Lemma grow_until_enough fuel need b :
  wf b ->
  need + 3 <= grown fuel (len (data b)) - size b ->
  exists b', grow_until fuel need b = Returns None b' /\
    live b' = live b /\ count b' = count b /\ mutex b' = mutex b /\
    wf b' /\ available need b' = true /\ len (data b) <= len (data b').
Proof.
  revert b. induction fuel as [|fuel IH]; intros b Hwf Hroom.
  - simpl in *. assert (Ha : available need b = true).
    { apply available_iff. rewrite free_bytes_size. lia. }
    rewrite Ha. exists b. repeat split; try assumption; try lia; apply Hwf.
  - simpl. destruct (available need b) eqn:Ha.
    + exists b. repeat split; try assumption; try lia; apply Hwf.
    + destruct (grow_ok b Hwf)
        as (b1 & Hg & Hlive & Hh & Ht & Hlen & Hcount & Hmu & _ & Hr).
      rewrite Hg.
      assert (Hs : size b1 = size b).
      { pose proof (wf_size b Hwf). unfold size in *. rewrite Hh, Ht.
        rewrite decide_False by lia. lia. }
      destruct (IH b1 (in_range_wf _ Hr)) as (b' & Hb' & Hl' & Hc' & Hm' & Hw' & Ha' & Hle).
      { rewrite Hlen, Hs. simpl in Hroom. exact Hroom. }
      exists b'. rewrite Hb'. repeat split; try congruence; try apply Hw'.
      pose proof (newsize_of_bounds (len (data b)) ltac:(unfold len; lia)). lia.
Qed.
(** ** What the calls do on any buffer *)

Lemma bind_inv {A B} (m : M A) (k : A -> M B) b r b' :
  bind m k b = Returns r b' ->
  exists a b1, m b = Returns a b1 /\ k a b1 = Returns r b'.
Proof.
  unfold bind. destruct (m b) as [a b1| | |]; try discriminate.
  intros H. exists a, b1. split; [reflexivity | exact H].
Qed.

Lemma length_copy dst src : length (fst (copy dst src)) = length dst.
Proof. rewrite copy_nat. simpl. lens. lia. Qed.

Lemma length_copy_at dst lo src r :
  copy_at dst lo src = Some r -> length (fst r) = length dst.
Proof.
  unfold copy_at, slice. case_decide as Hlo; [| discriminate].
  destruct (copy _ src) as [w n] eqn:Hc. intros [= <-]. simpl.
  pose proof (length_copy (take (Z.to_nat (len dst - lo)) (drop (Z.to_nat lo) dst)) src) as Hl.
  rewrite Hc in Hl. simpl in Hl. unfold len in *.
  rewrite length_app, Hl. lens. lia.
Qed.

(** A growth step that returns has returned nil, replaced the arena by one
    of the new size, and has touched neither count nor the mutex. *)
Lemma grow_returns b r b' :
  grow b = Returns r b' ->
  r = None /\ len (data b') = newsize_of (len (data b)) /\
  head b' = 0 /\ count b' = count b /\ mutex b' = mutex b.
Proof.
  destruct b as [mu d h t n]. unfold grow, make. msimpl.
  pose proof (newsize_of_bounds (len d) ltac:(unfold len; lia)) as [_ Hmin].
  unfold minSize in Hmin.
  rewrite decide_True by lia. msimpl.
  set (N := newsize_of (len d)) in *.
  assert (HN : len (replicate (Z.to_nat N) x00) = N)
    by (unfold len; rewrite length_replicate; lia).
  set (nd := replicate (Z.to_nat N) x00) in *. clearbody nd.
  case_decide.
  - destruct (slice d h t) as [src|]; msimpl; [| discriminate].
    pose proof (length_copy nd src) as Hl.
    destruct (copy nd src) as [nd' k]. simpl in Hl.
    intros [= <- <-]. fields. unfold len in *. repeat split; congruence.
  - destruct (slice d h (len d)) as [src1|]; msimpl; [| discriminate].
    pose proof (length_copy nd src1) as Hl.
    destruct (copy nd src1) as [nd1 k]. simpl in Hl.
    destruct (slice d 0 t) as [src2|]; msimpl; [| discriminate].
    destruct (copy_at nd1 k src2) as [r2|] eqn:Hc; msimpl; [| discriminate].
    apply length_copy_at in Hc. destruct r2 as [nd2 k2]. simpl in Hc.
    intros [= <- <-]. fields. unfold len in *. repeat split; congruence.
Qed.

Lemma grow_until_returns fuel need b r b' :
  wf b -> grow_until fuel need b = Returns r b' ->
  r = None /\ live b' = live b /\ count b' = count b /\
  mutex b' = mutex b /\ wf b' /\ available need b' = true /\
  len (data b) <= len (data b').
Proof.
  revert b. induction fuel as [|fuel IH]; intros b Hwf; simpl.
  - destruct (available need b) eqn:Ha; [| discriminate].
    intros [= <- <-]. repeat split; try assumption; try lia; apply Hwf.
  - destruct (available need b) eqn:Ha.
    + intros [= <- <-]. repeat split; try assumption; try lia; apply Hwf.
    + destruct (grow_ok b Hwf)
        as (b1 & Hg & Hlive & Hh & Ht & Hlen & Hcount & Hmu & _ & Hr).
      rewrite Hg. intros Hrec.
      destruct (IH b1 (in_range_wf _ Hr) Hrec)
        as (-> & Hl' & Hc' & Hm' & Hw' & Ha' & Hle).
      repeat split; try congruence; try apply Hw'.
      pose proof (newsize_of_bounds (len (data b)) ltac:(unfold len; lia)). lia.
Qed.

(** On any buffer, a growth loop that returns has returned nil. *)
Lemma grow_until_nil fuel need b r b' :
  grow_until fuel need b = Returns r b' -> r = None.
Proof.
  revert b. induction fuel as [|fuel IH]; intros b; simpl.
  - destruct (available need b); [| discriminate]. intros [= <- _]. reflexivity.
  - destruct (available need b); [intros [= <- _]; reflexivity |].
    destruct (grow b) as [[e|] b1| | |] eqn:Hg; try discriminate.
    + apply grow_returns in Hg. destruct Hg as [Hg _]. discriminate.
    + apply IH.
Qed.

(** ** Write on a consistent buffer *)

Lemma flat_app q1 q2 : flat (q1 ++ q2) = flat q1 ++ flat q2.
Proof.
  induction q1 as [|p q1 IH]; simpl; [reflexivity |].
  rewrite IH, app_assoc. reflexivity.
Qed.

Lemma len_app {A} (l k : list A) : len (l ++ k) = len l + len k.
Proof. unfold len. rewrite length_app. lia. Qed.

Lemma Lock_ok b : mutex b = false -> Lock b = Returns tt (set_mutex true b).
Proof. unfold Lock. intros ->. reflexivity. Qed.

Lemma Unlock_ok b : mutex b = true -> Unlock b = Returns tt (set_mutex false b).
Proof. unfold Unlock. intros ->. reflexivity. Qed.

Lemma Write_after_growth fuel p b q r b1 :
  Rep b q -> mutex b = false -> len p < 65536 ->
  grow_until fuel (len p) (set_mutex true b) = Returns r b1 ->
  exists b', Write fuel p b = Returns (len p, None) b' /\
    Rep b' (q ++ [p]) /\ mutex b' = false /\
    len (data b) <= len (data b').
Proof.
  intros (Hwf & Hlive & Hcount & Hall) Hmu Hp Hg.
  unfold Write. rewrite decide_False by lia.
  rewrite (bind_Returns _ _ _ _ _ (Lock_ok b Hmu)).
  set (b0 := set_mutex true b) in *.
  assert (Hwf0 : wf b0) by exact Hwf.
  destruct (grow_until_returns fuel (len p) b0 r b1 Hwf0 Hg)
    as (-> & Hl1 & Hc1 & Hm1 & Hw1 & Ha1 & Hle1).
  rewrite (bind_Returns _ _ _ _ _ Hg).
  apply available_iff in Ha1. rewrite free_bytes_size in Ha1.
  assert (Hr1 : in_range b1).
  { pose proof (wf_size b1 Hw1). unfold wf, in_range in *. unfold len in *. lia. }
  rewrite (size_live b1 Hr1) in Ha1.
  destruct (put_byte_ok (uint8 (Z.shiftr (len p) 8)) b1 Hr1 ltac:(unfold len in *; lia))
    as (b2 & Hp2 & Hl2 & Hm2 & Hh2 & Hc2 & Hd2 & Ht2).
  assert (Hr2 : in_range b2) by (unfold in_range in *; lia).
  destruct (put_byte_ok (uint8 (len p)) b2 Hr2)
    as (b3 & Hp3 & Hl3 & Hm3 & Hh3 & Hc3 & Hd3 & Ht3).
  { rewrite Hl2, len_app. change (len [_]) with 1. unfold len in *. lia. }
  assert (Hr3 : in_range b3) by (unfold in_range in *; lia).
  destruct (store_payload_ok p b3 Hr3)
    as (b4 & Hp4 & Hl4 & Hm4 & Hh4 & Hc4 & Hd4 & Ht4).
  { rewrite Hl3, Hl2, !len_app. change (len [_]) with 1. unfold len in *. lia. }
  assert (Hsl : store_length p b1 = Returns tt b3).
  { unfold store_length. rewrite (bind_Returns _ _ _ _ _ Hp2). exact Hp3. }
  rewrite (bind_Returns _ _ _ _ _ Hsl).
  rewrite (bind_Returns _ _ _ _ _ Hp4).
  rewrite (bind_Returns (modify _) _ _ _ _ eq_refl). cbv beta.
  assert (Hm5 : mutex (set_count (count b4 + 1) b4) = true)
    by (simpl; rewrite Hm4, Hm3, Hm2, Hm1; reflexivity).
  rewrite (bind_Returns _ _ _ _ _ (Unlock_ok _ Hm5)).
  unfold ret. eexists; split; [reflexivity |].
  split; [| split; [reflexivity | simpl; unfold b0 in *; simpl in *; lia]].
  unfold Rep. repeat split.
  - unfold wf, in_range in *. simpl. lia.
  - unfold wf, in_range in *. simpl. lia.
  - unfold wf, in_range in *. simpl. lia.
  - unfold wf, in_range in *. simpl. lia.
  - change (live (set_mutex false (set_count (count b4 + 1) b4)))
      with (live b4).
    rewrite Hl4, Hl3, Hl2, Hl1.
    change (live b0) with (live b).
    rewrite Hlive, flat_app. simpl. rewrite app_nil_r, <- !app_assoc.
    reflexivity.
  - rewrite len_app. change (len [p]) with 1. unfold b0 in *. simpl in *. lia.
  - apply Forall_app. split; [assumption |]. apply Forall_singleton. exact Hp.
Qed.
Lemma Write_ok fuel p b q :
  Rep b q -> mutex b = false -> (7 <= fuel)%nat -> len p < 65536 ->
  exists b', Write fuel p b = Returns (len p, None) b' /\
    Rep b' (q ++ [p]) /\ mutex b' = false /\
    len (data b) <= len (data b').
Proof.
  intros HR Hmu Hfuel Hp.
  assert (Hwf0 : wf (set_mutex true b)) by apply HR.
  pose proof (wf_size _ Hwf0) as Hsz.
  destruct (grow_until_enough fuel (len p) (set_mutex true b) Hwf0)
    as (b1 & Hg & _).
  { pose proof (grown_enough fuel (len (data (set_mutex true b))) Hfuel
                  ltac:(unfold len; lia)).
    lia. }
  exact (Write_after_growth fuel p b q None b1 HR Hmu Hp Hg).
Qed.

(** Whatever the fuel, a Write that returns has done the same. *)
Lemma Write_returns fuel p b q r b' :
  Rep b q -> mutex b = false -> len p < 65536 ->
  Write fuel p b = Returns r b' ->
  r = (len p, None) /\ Rep b' (q ++ [p]) /\ mutex b' = false.
Proof.
  intros HR Hmu Hp Hw.
  destruct (grow_until fuel (len p) (set_mutex true b)) as [e b1| | |] eqn:Hg.
  - destruct (Write_after_growth fuel p b q e b1 HR Hmu Hp Hg)
      as (b2 & Hw2 & HR2 & Hm2 & _).
    rewrite Hw2 in Hw. injection Hw as <- <-. auto.
  - unfold Write in Hw. rewrite decide_False in Hw by lia.
    rewrite (bind_Returns _ _ _ _ _ (Lock_ok b Hmu)) in Hw.
    unfold bind in Hw. rewrite Hg in Hw. discriminate.
  - unfold Write in Hw. rewrite decide_False in Hw by lia.
    rewrite (bind_Returns _ _ _ _ _ (Lock_ok b Hmu)) in Hw.
    unfold bind in Hw. rewrite Hg in Hw. discriminate.
  - unfold Write in Hw. rewrite decide_False in Hw by lia.
    rewrite (bind_Returns _ _ _ _ _ (Lock_ok b Hmu)) in Hw.
    unfold bind in Hw. rewrite Hg in Hw. discriminate.
Qed.

(** ** Read on a consistent buffer *)

Lemma Rep_nonempty_in_range b p q : Rep b (p :: q) -> in_range b.
Proof.
  intros (Hwf & Hlive & _). unfold wf, in_range in *.
  destruct (decide (len (data b) = 0)) as [Hz|Hz]; [| unfold len in *; lia].
  exfalso.
  assert (Hd : data b = []).
  { destruct (data b); [reflexivity | discriminate]. }
  assert (Hn : live b = []).
  { unfold live, livez. rewrite Hd.
    case_decide; rewrite ?drop_nil, ?take_nil; reflexivity. }
  rewrite Hn in Hlive. discriminate.
Qed.

Lemma live_nil_iff b : in_range b -> (live b = [] <-> head b = tail b).
Proof.
  intros Hr. pose proof (size_live b Hr) as Hs.
  unfold in_range, size in *. split.
  - intros Hl. rewrite Hl in Hs. change (len []) with 0 in Hs.
    case_decide; lia.
  - intros He. rewrite He in Hs. rewrite decide_False in Hs by lia.
    destruct (live b); [reflexivity |]. unfold len in Hs. simpl in Hs. lia.
Qed.

Lemma Rep_empty_cursors b : Rep b [] -> head b = tail b.
Proof.
  intros (Hwf & Hlive & _). simpl in Hlive.
  destruct (decide (len (data b) = 0)) as [Hz|Hz].
  - unfold wf in Hwf. lia.
  - apply live_nil_iff; [| assumption].
    unfold wf, in_range, len in *. lia.
Qed.

Lemma decode_size_ok b p L :
  in_range b -> live b = frame p ++ L -> len p < 65536 ->
  exists b', decode_size b = Returns (len p) b' /\
    live b' = p ++ L /\ head_moved b b' /\ in_range b'.
Proof.
  intros Hr Hlive Hp. unfold frame in Hlive. simpl in Hlive.
  destruct (get_byte_ok b _ _ Hr Hlive) as (b1 & Hg1 & Hl1 & Hm1 & Ht1 & Hc1 & Hd1 & Hh1).
  assert (Hr1 : in_range b1).
  { unfold in_range in *. rewrite Hd1 in Hh1 |- *. rewrite Ht1. lia. }
  destruct (get_byte_ok b1 _ _ Hr1 Hl1) as (b2 & Hg2 & Hl2 & Hm2 & Ht2 & Hc2 & Hd2 & Hh2).
  exists b2. unfold decode_size.
  rewrite (bind_Returns _ _ _ _ _ Hg1), (bind_Returns _ _ _ _ _ Hg2).
  unfold ret. rewrite header_decode by (unfold len in *; lia).
  unfold in_range in *. rewrite Hd2 in Hh2 |- *. rewrite Hd1 in Hh1, Hh2 |- *.
  repeat split; try congruence; try lia.
  all: rewrite ?Hd2, ?Hd1, ?Ht2, ?Ht1; lia.
Qed.

Lemma Read_empty dst b :
  Rep b [] -> mutex b = false -> Read dst b = Returns (0, None, dst) b.
Proof.
  intros HR Hmu. pose proof (Rep_empty_cursors b HR) as He.
  destruct b as [mu d h t n]. simpl in *. subst mu t.
  unfold Read, Lock, Unlock. msimpl.
  rewrite decide_False by (intros Hne; apply Hne; reflexivity).
  reflexivity.
Qed.

Lemma Read_ok dst b p q :
  Rep b (p :: q) -> mutex b = false -> len p <= len dst ->
  exists b', Read dst b = Returns (len p, None, p ++ drop (length p) dst) b' /\
    Rep b' q /\ mutex b' = false /\ data b' = data b.
Proof.
  intros HR Hmu Hdst. pose proof (Rep_nonempty_in_range b p q HR) as Hr.
  destruct HR as (Hwf & Hlive & Hcount & Hall).
  pose proof (Forall_inv Hall) as Hp. cbv beta in Hp.
  apply Forall_inv_tail in Hall.
  assert (Hne : head b <> tail b).
  { intros He. apply (live_nil_iff b Hr) in He. rewrite He in Hlive.
    discriminate. }
  unfold Read. rewrite (bind_Returns _ _ _ _ _ (Lock_ok b Hmu)).
  set (b0 := set_mutex true b).
  rewrite (bind_Returns get _ _ _ _ eq_refl).
  rewrite decide_True by exact Hne.
  destruct (decode_size_ok b0 p (flat q) Hr Hlive Hp)
    as (b1 & Hd & Hl1 & (Hm1 & Ht1 & Hc1 & Hd1 & Hh1) & Hr1).
  rewrite (bind_Returns _ _ _ _ _ Hd). cbv zeta.
  rewrite decide_False by lia.
  assert (Hm : (length p <= length (live b1))%nat).
  { rewrite Hl1, length_app. lia. }
  pose proof (copy_out_ok dst (length p) b1 Hr1 Hm ltac:(unfold len in *; lia))
    as Hco.
  change (Z.of_nat (length p)) with (len p) in Hco.
  rewrite (bind_Returns _ _ _ _ _ Hco).
  destruct (advance_head_by_ok (length p) b1 Hr1 Hm)
    as (b2 & Ha & Hl2 & Hm2 & Hc2 & Hd2 & Hr2).
  change (Z.of_nat (length p)) with (len p) in Ha.
  rewrite (bind_Returns _ _ _ _ _ Ha).
  rewrite (bind_Returns (modify _) _ _ _ _ eq_refl). cbv beta.
  assert (Hm5 : mutex (set_count (count b2 - 1) b2) = true)
    by (simpl; rewrite Hm2, Hm1; reflexivity).
  rewrite (bind_Returns _ _ _ _ _ (Unlock_ok _ Hm5)).
  unfold ret. eexists; split.
  { rewrite Hl1, take_app_length. reflexivity. }
  split; [| split; [reflexivity | simpl; rewrite Hd2, Hd1; reflexivity]].
  unfold Rep. repeat split; try assumption.
  - unfold in_range in Hr2. simpl. lia.
  - unfold in_range in Hr2. simpl. lia.
  - unfold in_range in Hr2. simpl. lia.
  - unfold in_range in Hr2. simpl. lia.
  - change (live (set_mutex false (set_count (count b2 - 1) b2)))
      with (live b2).
    rewrite Hl2, Hl1, drop_app_length. reflexivity.
  - simpl. rewrite Hc2, Hc1. change (count b0) with (count b).
    rewrite Hcount. unfold len. simpl. lia.
Qed.

Lemma Read_short dst b p q :
  Rep b (p :: q) -> mutex b = false -> len dst < len p ->
  exists b',
    Read dst b
    = Returns (0, Some (errors_New (short_buffer_msg (len p))), dst) b' /\
    mutex b' = true /\ live b' = p ++ flat q /\ head b' <> head b /\
    tail b' = tail b /\ count b' = count b /\ data b' = data b.
Proof.
  intros HR Hmu Hdst. pose proof (Rep_nonempty_in_range b p q HR) as Hr.
  destruct HR as (Hwf & Hlive & Hcount & Hall).
  pose proof (Forall_inv Hall) as Hp. cbv beta in Hp.
  apply Forall_inv_tail in Hall.
  assert (Hne : head b <> tail b).
  { intros He. apply (live_nil_iff b Hr) in He. rewrite He in Hlive.
    discriminate. }
  unfold Read. rewrite (bind_Returns _ _ _ _ _ (Lock_ok b Hmu)).
  set (b0 := set_mutex true b).
  rewrite (bind_Returns get _ _ _ _ eq_refl).
  rewrite decide_True by exact Hne.
  destruct (decode_size_ok b0 p (flat q) Hr Hlive Hp)
    as (b1 & Hd & Hl1 & (Hm1 & Ht1 & Hc1 & Hd1 & Hh1) & Hr1).
  rewrite (bind_Returns _ _ _ _ _ Hd). cbv zeta.
  rewrite decide_True by lia.
  exists b1. repeat split; try assumption.
  intros Heq.
  assert (Hb : live b1 = live b0).
  { unfold live. rewrite Hd1, Ht1, Heq. reflexivity. }
  change (live b0) with (live b) in Hb. rewrite Hl1, Hlive in Hb.
  apply (f_equal length) in Hb. unfold frame in Hb. simpl in Hb.
  rewrite !length_app in Hb. simpl in Hb. lia.
Qed.
(** ** Counting and sizing *)

Lemma Count_ok b : mutex b = false -> Count b = Returns (count b) b.
Proof.
  destruct b as [mu d h t n]. simpl. intros ->. reflexivity.
Qed.

Lemma Size_ok b : mutex b = false -> Size b = Returns (size b) b.
Proof.
  destruct b as [mu d h t n]. simpl. intros ->. reflexivity.
Qed.

Lemma len_flat q : len (flat q) = queued_bytes q.
Proof.
  induction q as [|p q IH]; [reflexivity |].
  simpl. rewrite <- IH. unfold len. simpl. rewrite length_app. lia.
Qed.

Lemma Rep_size b q : Rep b q -> size b = queued_bytes q.
Proof.
  intros HR. destruct q as [|p q].
  - pose proof (Rep_empty_cursors b HR) as He. unfold size. rewrite He.
    rewrite decide_False by lia. simpl. lia.
  - pose proof (Rep_nonempty_in_range b p q HR) as Hr.
    rewrite (size_live b Hr). destruct HR as (_ & -> & _). apply len_flat.
Qed.

Lemma Rep_new : Rep NewBuffer [].
Proof.
  unfold Rep, wf. simpl. repeat split; try lia. constructor.
Qed.

(** ** Held mutex *)

Lemma Read_blocks dst b : mutex b = true -> Read dst b = Blocks.
Proof. unfold Read, bind, Lock. intros ->. reflexivity. Qed.

Lemma Count_blocks b : mutex b = true -> Count b = Blocks.
Proof. unfold Count, bind, Lock. intros ->. reflexivity. Qed.

Lemma Size_blocks b : mutex b = true -> Size b = Blocks.
Proof. unfold Size, bind, Lock. intros ->. reflexivity. Qed.

Lemma Write_too_big fuel p b :
  65536 <= len p -> Write fuel p b = Returns (0, Some ErrPacketTooBig) b.
Proof. intros Hp. unfold Write. rewrite decide_True by lia. reflexivity. Qed.

Lemma Write_blocks fuel p b :
  len p < 65536 -> mutex b = true -> Write fuel p b = Blocks.
Proof.
  intros Hp Hmu. unfold Write. rewrite decide_False by lia.
  unfold bind, Lock. rewrite Hmu. reflexivity.
Qed.

(** ** Sequences of calls *)

(** A call that returns on a consistent buffer leaves the queue the
    model gives, unless it is a Read that failed. *)
Lemma do_call_step fuel c b q r b' :
  Rep b q -> mutex b = false ->
  do_call fuel c b = Returns r b' ->
  read_ok r = true ->
  Rep b' (queue_step q c) /\ mutex b' = false.
Proof.
  intros HR Hmu Hc Hok. destruct c as [p|dst| |]; simpl in *.
  - apply bind_inv in Hc as (r0 & b0 & Hw & Hret). injection Hret as <- <-.
    case_decide as Hp.
    + apply (Write_returns fuel p b q r0 b0 HR Hmu Hp) in Hw as (_ & ? & ?).
      auto.
    + rewrite Write_too_big in Hw by lia. injection Hw as <- <-. auto.
  - apply bind_inv in Hc as (r0 & b0 & Hrd & Hret). injection Hret as <- <-.
    destruct q as [|p q].
    + rewrite (Read_empty dst b HR Hmu) in Hrd. injection Hrd as <- <-. auto.
    + destruct (decide (len dst < len p)) as [Hs|Hs].
      * destruct (Read_short dst b p q HR Hmu Hs) as (b1 & Hrs & _).
        rewrite Hrs in Hrd. injection Hrd as <- <-. discriminate.
      * destruct (Read_ok dst b p q HR Hmu ltac:(lia)) as (b1 & Hro & ? & ? & _).
        rewrite Hro in Hrd. injection Hrd as <- <-. simpl. auto.
  - apply bind_inv in Hc as (r0 & b0 & Hcn & Hret). injection Hret as <- <-.
    rewrite (Count_ok b Hmu) in Hcn. injection Hcn as <- <-. auto.
  - apply bind_inv in Hc as (r0 & b0 & Hcn & Hret). injection Hret as <- <-.
    rewrite (Size_ok b Hmu) in Hcn. injection Hcn as <- <-. auto.
Qed.

Lemma run_steps fuel cs : forall b q rs b',
  Rep b q -> mutex b = false ->
  run fuel cs b = Returns rs b' ->
  forallb read_ok rs = true ->
  Rep b' (fold_left queue_step cs q) /\ mutex b' = false.
Proof.
  induction cs as [|c cs IH]; intros b q rs b' HR Hmu Hrun Hok; simpl in *.
  - injection Hrun as <- <-. auto.
  - apply bind_inv in Hrun as (r & b1 & Hc & Hrun).
    apply bind_inv in Hrun as (rs' & b2 & Hrun & Hret).
    injection Hret as <- <-. simpl in Hok.
    apply andb_true_iff in Hok as [Hok1 Hok2].
    destruct (do_call_step fuel c b q r b1 HR Hmu Hc Hok1) as [HR1 Hmu1].
    exact (IH b1 _ rs' b2 HR1 Hmu1 Hrun Hok2).
Qed.

(** A call on a buffer whose mutex is held returns only when it is a
    Write of a packet too big, and then leaves the buffer as it was. *)
Lemma do_call_held fuel c b r b' :
  mutex b = true -> do_call fuel c b = Returns r b' -> b' = b.
Proof.
  intros Hmu Hc. destruct c as [p|dst| |]; simpl in Hc;
    apply bind_inv in Hc as (r0 & b0 & Hc & Hret); injection Hret as <- <-.
  - destruct (decide (len p < 65536)) as [Hp|Hp].
    + rewrite (Write_blocks fuel p b Hp Hmu) in Hc. discriminate.
    + rewrite Write_too_big in Hc by lia. injection Hc as <- <-. reflexivity.
  - rewrite (Read_blocks dst b Hmu) in Hc. discriminate.
  - rewrite (Count_blocks b Hmu) in Hc. discriminate.
  - rewrite (Size_blocks b Hmu) in Hc. discriminate.
Qed.

Lemma do_call_consistent fuel c b r b' :
  consistent b -> do_call fuel c b = Returns r b' ->
  consistent b' \/ mutex b' = true.
Proof.
  intros [Hmu [q HR]] Hc.
  destruct (read_ok r) eqn:Hok.
  - left. destruct (do_call_step fuel c b q r b' HR Hmu Hc Hok) as [HR' Hmu'].
    split; [assumption | eauto].
  - right. destruct c as [p|dst| |]; simpl in Hc;
      apply bind_inv in Hc as (r0 & b0 & Hc & Hret); injection Hret as <- <-;
      try discriminate.
    destruct q as [|p q].
    + rewrite (Read_empty dst b HR Hmu) in Hc. injection Hc as <- <-.
      discriminate.
    + destruct (decide (len dst < len p)) as [Hs|Hs].
      * destruct (Read_short dst b p q HR Hmu Hs) as (b1 & Hrs & Hm1 & _).
        rewrite Hrs in Hc. injection Hc as <- <-. exact Hm1.
      * destruct (Read_ok dst b p q HR Hmu ltac:(lia)) as (b1 & Hro & _).
        rewrite Hro in Hc. injection Hc as <- <-. discriminate.
Qed.

Lemma run_consistent fuel cs : forall b rs b',
  consistent b \/ mutex b = true ->
  run fuel cs b = Returns rs b' ->
  consistent b' \/ mutex b' = true.
Proof.
  induction cs as [|c cs IH]; intros b rs b' Hb Hrun; simpl in *.
  - injection Hrun as <- <-. exact Hb.
  - apply bind_inv in Hrun as (r & b1 & Hc & Hrun).
    apply bind_inv in Hrun as (rs' & b2 & Hrun & Hret).
    injection Hret as <- <-.
    apply (IH b1 rs' b2); [| exact Hrun].
    destruct Hb as [Hb|Hb].
    + exact (do_call_consistent fuel c b r b1 Hb Hc).
    + right. rewrite (do_call_held fuel c b r b1 Hb Hc). exact Hb.
Qed.

Lemma reachable_consistent b :
  reachable b -> consistent b \/ mutex b = true.
Proof.
  intros (fuel & cs & rs & Hrun).
  apply (run_consistent fuel cs NewBuffer rs b); [| exact Hrun].
  left. split; [reflexivity |]. exists []. exact Rep_new.
Qed.
(** * The claims *)

Lemma run_writes fuel ps : forall b q,
  Rep b q -> mutex b = false -> (7 <= fuel)%nat ->
  Forall (fun p : list byte => len p <= 65535) ps ->
  exists b',
    run fuel (map CallWrite ps) b
    = Returns (map (fun p : list byte => WriteResult (len p) None) ps) b' /\
    Rep b' (q ++ ps) /\ mutex b' = false.
Proof.
  induction ps as [|p ps IH]; intros b q HR Hmu Hfuel Hall; simpl.
  - exists b. rewrite app_nil_r. auto.
  - pose proof (Forall_inv Hall) as Hp. cbv beta in Hp.
    apply Forall_inv_tail in Hall.
    destruct (Write_ok fuel p b q HR Hmu Hfuel ltac:(lia))
      as (b1 & Hw & HR1 & Hmu1 & _).
    destruct (IH b1 (q ++ [p]) HR1 Hmu1 Hfuel Hall) as (b2 & Hrun & HR2 & Hmu2).
    exists b2. unfold bind at 1. unfold bind at 1. rewrite Hw.
    unfold ret at 1. unfold bind at 1. rewrite Hrun.
    rewrite <- app_assoc in HR2. auto.
Qed.

Lemma run_reads fuel ps : forall dsts b q,
  Rep b (ps ++ q) -> mutex b = false ->
  Forall2 (fun p dst : list byte => len p <= len dst) ps dsts ->
  exists b',
    run fuel (map CallRead dsts) b
    = Returns (zip_with (fun p dst : list byte =>
                 ReadResult (len p) None (p ++ drop (length p) dst)) ps dsts) b' /\
    Rep b' q /\ mutex b' = false.
Proof.
  induction ps as [|p ps IH]; intros dsts b q HR Hmu Hfit.
  - inversion Hfit; subst. simpl. exists b. auto.
  - inversion Hfit as [|? dst ? dsts' Hd Hfit']; subst. simpl in *.
    destruct (Read_ok dst b p (ps ++ q) HR Hmu Hd)
      as (b1 & Hrd & HR1 & Hmu1 & _).
    destruct (IH dsts' b1 q HR1 Hmu1 Hfit') as (b2 & Hrun & HR2 & Hmu2).
    exists b2. unfold bind at 1. unfold bind at 1. rewrite Hrd.
    unfold ret at 1. unfold bind at 1. rewrite Hrun. auto.
Qed.

(** C1: n packets of at most 65535 bytes written to a new buffer are
    read back by n Reads with large enough destinations, in the order
    they were written: each Write returns the length of its packet and no
    error, each Read returns the length of the next packet and no error,
    and leaves that packet in the first bytes of its destination. *)
Theorem C1_fifo_roundtrip (fuel : nat) (ps dsts : list (list byte)) :
  (7 <= fuel)%nat ->
  Forall (fun p : list byte => len p <= 65535) ps ->
  Forall2 (fun p dst : list byte => len p <= len dst) ps dsts ->
  exists b1 b2,
    run fuel (map CallWrite ps) NewBuffer
    = Returns (map (fun p : list byte => WriteResult (len p) None) ps) b1 /\
    run fuel (map CallRead dsts) b1
    = Returns (zip_with (fun p dst : list byte =>
                 ReadResult (len p) None (p ++ drop (length p) dst)) ps dsts) b2 /\
    map observe
      (zip_with (fun p dst : list byte =>
         ReadResult (len p) None (p ++ drop (length p) dst)) ps dsts)
    = map (fun p : list byte => ReadResult (len p) None p) ps.
Proof.
  intros Hfuel Hall Hfit.
  destruct (run_writes fuel ps NewBuffer [] Rep_new eq_refl Hfuel Hall)
    as (b1 & Hw & HR1 & Hmu1).
  simpl in HR1. rewrite <- (app_nil_r ps) in HR1.
  destruct (run_reads fuel ps dsts b1 [] HR1 Hmu1 Hfit) as (b2 & Hr & _).
  exists b1, b2. split; [exact Hw |]. split; [exact Hr |].
  clear -Hfit. induction Hfit as [|p dst ps dsts Hd Hfit IH]; [reflexivity |].
  simpl. rewrite IH. f_equal. f_equal. unfold len. rewrite Nat2Z.id.
  apply take_app_length.
Qed.

Lemma C1_fifo_roundtrip_witness :
  exists b1 b2,
    run 7 (map CallWrite [[x01; x02]; []; [x03]]) NewBuffer
    = Returns [WriteResult 2 None; WriteResult 0 None; WriteResult 1 None] b1 /\
    run 7 (map CallRead [[x00; x00; x00]; [x09]; [x00]]) b1
    = Returns [ReadResult 2 None [x01; x02; x00]; ReadResult 0 None [x09];
               ReadResult 1 None [x03]] b2.
Proof.
  destruct (C1_fifo_roundtrip 7 [[x01; x02]; []; [x03]]
              [[x00; x00; x00]; [x09]; [x00]]) as (b1 & b2 & H1 & H2 & _).
  - lia.
  - repeat constructor; vm_compute; discriminate.
  - repeat constructor; vm_compute; discriminate.
  - exists b1, b2. split; [exact H1 | exact H2].
Defined.
(** What Read does on a destination shorter than the oldest record.  It
    returns the error that names the record's length; but it has by then
    moved head past the two header bytes and it returns with the mutex
    held, so the record is not left as it was: the live bytes now start at
    the payload, and every later Read blocks. *)
Lemma Read_short_consumes_header (dst : list byte) (b : Buffer)
    (p : list byte) (q : list (list byte)) :
  Rep b (p :: q) -> mutex b = false -> len dst < len p ->
  exists b',
    Read dst b
    = Returns (0, Some (errors_New (short_buffer_msg (len p))), dst) b' /\
    head b' <> head b /\ mutex b' = true /\
    live b' = p ++ flat q /\
    (forall dst', Read dst' b' = Blocks).
Proof.
  intros HR Hmu Hs.
  destruct (Read_short dst b p q HR Hmu Hs)
    as (b' & Hrd & Hmu' & Hl & Hh & _).
  exists b'. repeat split; try assumption.
  intros dst'. apply Read_blocks. exact Hmu'.
Qed.

(** C2: a Read into a destination shorter than the oldest record is to
    fail and leave the buffer as it was.  The code at a failing input: one
    packet of three bytes is queued (head 0, tail 5); a Read into two bytes
    returns the error naming 3, but leaves head at 2 and the mutex held;
    the next Read, into four bytes, blocks; and were the mutex released it
    would decode the payload bytes 1, 2 as a length of 258 and fail
    again. *)
Theorem C2_short_read_failing_input :
  let b1 := state_after 7 [CallWrite [x01; x02; x03]] in
  let b2 := set_mutex true (set_head 2 b1) in
  head b1 = 0 /\ tail b1 = 5 /\ count b1 = 1 /\ mutex b1 = false /\
  Read [x00; x00] b1
  = Returns (0, Some (errors_New "short buffer, at least 3 is needed"),
             [x00; x00]) b2 /\
  Read [x00; x00; x00; x00] b2 = Blocks /\
  returned (Read [x00; x00; x00; x00] (set_mutex false b2))
  = Some (0, Some (errors_New "short buffer, at least 258 is needed"),
          [x00; x00; x00; x00]).
Proof.
  vm_compute. repeat split.
Qed.
(** C3, as the claim states it: the scenario with [Size()] returning 6.
    The code returns 10 there, the two records with their headers. *)
Lemma C3_scenario_counterexample :
  ~ exists rs b, scenario = Returns rs b /\ map observe rs = scenario_results 6.
Proof.
  intros (rs & b & Hs & Hobs).
  assert (Hr : returned scenario = Some rs) by (rewrite Hs; reflexivity).
  clear Hs. vm_compute in Hr. injection Hr as <-.
  vm_compute in Hobs. discriminate Hobs.
Qed.

(** C3, amended: on a new buffer the calls Write([0,1]); Read(buf4);
    Write([2,3,4]); Write([5,6,7]); Count(); Size(); Read(buf4);
    Read(buf4); Read(buf4) return (2, nil); (2, nil) with [0,1]; (3, nil);
    (3, nil); 2; 10; (3, nil) with [2,3,4]; (3, nil) with [5,6,7];
    (0, nil). *)
Theorem C3_scenario :
  exists rs b, scenario = Returns rs b /\ map observe rs = scenario_results 10.
Proof.
  destruct scenario as [rs b| | |] eqn:Hs; try (vm_compute in Hs; discriminate).
  exists rs, b. split; [reflexivity |].
  assert (Hr : returned scenario = Some rs) by (rewrite Hs; reflexivity).
  vm_compute in Hr. injection Hr as <-. vm_compute. reflexivity.
Qed.

(** C4: Write fails with [ErrPacketTooBig] exactly when the packet has
    65536 bytes or more; it then returns before the mutex is taken (it
    returns even when the mutex is held) and leaves the buffer, and so
    [Count()] and [Size()], as they were; a packet of 65535 bytes is
    written. *)
Theorem C4_packet_too_big (fuel : nat) (p : list byte) (b : Buffer) :
  (65536 <= len p ->
     Write fuel p b = Returns (0, Some ErrPacketTooBig) b) /\
  (forall n b', Write fuel p b = Returns (n, Some ErrPacketTooBig) b' ->
     65536 <= len p) /\
  (len p = 65535 -> (7 <= fuel)%nat -> consistent b ->
     exists b', Write fuel p b = Returns (65535, None) b').
Proof.
  split; [apply Write_too_big |]. split.
  - intros n b' Hw. destruct (decide (65536 <= len p)) as [|Hp]; [assumption |].
    exfalso. unfold Write in Hw. rewrite decide_False in Hw by lia.
    apply bind_inv in Hw as (? & b0 & _ & Hw).
    apply bind_inv in Hw as (e & b1 & Hg & Hw).
    apply grow_until_nil in Hg. subst e.
    apply bind_inv in Hw as (? & b2 & _ & Hw).
    apply bind_inv in Hw as (? & b3 & _ & Hw).
    apply bind_inv in Hw as (? & b4 & _ & Hw).
    apply bind_inv in Hw as (? & b5 & _ & Hw).
    discriminate.
  - intros Hp Hfuel [Hmu [q HR]].
    destruct (Write_ok fuel p b q HR Hmu Hfuel ltac:(lia)) as (b' & Hw & _).
    exists b'. rewrite Hw, Hp. reflexivity.
Qed.

Lemma C4_packet_too_big_witness :
  Write 7 (replicate (Z.to_nat 65536) x00) NewBuffer
  = Returns (0, Some ErrPacketTooBig) NewBuffer /\
  exists b', Write 7 (replicate (Z.to_nat 65535) x00) NewBuffer = Returns (65535, None) b'.
Proof.
  split.
  - apply (C4_packet_too_big 7 (replicate (Z.to_nat 65536) x00) NewBuffer).
    unfold len. rewrite length_replicate. lia.
  - apply (C4_packet_too_big 7 (replicate (Z.to_nat 65535) x00) NewBuffer).
    + unfold len. rewrite length_replicate. lia.
    + lia.
    + split; [reflexivity |]. exists []. unfold Rep, wf. simpl.
      repeat split; try lia. constructor.
Defined.

(** C5: after any calls on a new buffer that returned and among which no
    Read failed, [Size()] returns the sum of 2 + len(payload) over the
    queued packets and [Count()] returns their number. *)
Theorem C5_size_and_count (fuel : nat) (cs : list call) (rs : list result)
    (b : Buffer) :
  run fuel cs NewBuffer = Returns rs b ->
  forallb read_ok rs = true ->
  Size b = Returns (queued_bytes (queued cs)) b /\
  Count b = Returns (len (queued cs)) b.
Proof.
  intros Hrun Hok.
  destruct (run_steps fuel cs NewBuffer [] rs b Rep_new eq_refl Hrun Hok)
    as [HR Hmu].
  fold (queued cs) in HR. split.
  - rewrite (Size_ok b Hmu), (Rep_size b _ HR). reflexivity.
  - rewrite (Count_ok b Hmu). destruct HR as (_ & _ & -> & _). reflexivity.
Qed.

Lemma C5_size_and_count_witness :
  let cs := [CallWrite [x01; x02; x03]; CallWrite [x04]; CallRead [x00; x00; x00];
             CallWrite []] in
  Size (state_after 7 cs) = Returns 5 (state_after 7 cs) /\
  Count (state_after 7 cs) = Returns 2 (state_after 7 cs).
Proof.
  intros cs.
  destruct (run 7 cs NewBuffer) as [rs b| | |] eqn:Hrun;
    try (vm_compute in Hrun; discriminate).
  assert (Hb : state_after 7 cs = b) by (unfold state_after; rewrite Hrun; reflexivity).
  rewrite Hb.
  apply (C5_size_and_count 7 cs rs b Hrun).
  assert (Hr : returned (run 7 cs NewBuffer) = Some rs) by (rewrite Hrun; reflexivity).
  vm_compute in Hr. injection Hr as <-. reflexivity.
Defined.
(** C6: a growth step on a buffer whose cursors are inside its arena
    returns nil and leaves an arena of twice the old length when that was
    below 128 KiB and of 5/4 of it (in integers) otherwise, and of 2048
    bytes at least; the live bytes, contiguous or wrapped, are at offset 0
    of the new arena, head is 0, tail is the number of live bytes, count
    is unchanged, and the buffer holds the queue it held. *)
Theorem C6_grow (b : Buffer) :
  wf b ->
  exists b',
    grow b = Returns None b' /\
    len (data b')
    = Z.max 2048
        (if decide (len (data b) < 128 * 1024)
         then 2 * len (data b) else 5 * len (data b) / 4) /\
    take (Z.to_nat (len (live b))) (data b') = live b /\
    head b' = 0 /\ tail b' = len (live b) /\ count b' = count b /\
    live b' = live b /\
    (forall q, Rep b q -> Rep b' q).
Proof.
  intros Hwf.
  destruct (grow_ok b Hwf)
    as (b' & Hg & Hl & Hh & Ht & Hlen & Hc & Hmu & Htake & Hr).
  assert (Hs : size b = len (live b)).
  { rewrite <- Hl, <- (size_live b' Hr). pose proof (wf_size b Hwf).
    unfold size at 2. rewrite Hh, Ht. rewrite decide_False by lia. lia. }
  rewrite <- Hs.
  exists b'. split; [exact Hg |]. split.
  { rewrite Hlen. unfold newsize_of, minSize, cutoffSize.
    repeat case_decide; lia. }
  split; [exact Htake |].
  split; [exact Hh |]. split; [exact Ht |]. split; [exact Hc |].
  split; [exact Hl |].
  intros q (_ & Hlive & Hcount & Hall).
  split; [exact (in_range_wf b' Hr) |].
  split; [congruence |]. split; [congruence | exact Hall].
Qed.

Lemma C6_grow_witness :
  exists b',
    grow NewBuffer = Returns None b' /\ len (data b') = 2048 /\
    head b' = 0 /\ tail b' = 0 /\ count b' = 0 /\ live b' = [].
Proof.
  destruct (C6_grow NewBuffer) as (b' & Hg & Hlen & _ & Hh & Ht & Hc & Hl & _).
  - unfold wf. simpl. lia.
  - exists b'. repeat split; assumption.
Defined.

Lemma run_empty_reads fuel dsts b :
  Rep b [] -> mutex b = false ->
  run fuel (map CallRead dsts) b
  = Returns (map (fun dst : list byte => ReadResult 0 None dst) dsts) b.
Proof.
  intros HR Hmu. induction dsts as [|dst dsts IH]; simpl; [reflexivity |].
  unfold bind at 1. unfold bind at 1. rewrite (Read_empty dst b HR Hmu).
  unfold ret at 1. unfold bind at 1. rewrite IH. reflexivity.
Qed.

(** C7: on a buffer some calls have left and whose [Count()] returns 0,
    any number of Reads return (0, nil) each, leave their destinations as
    they were and leave the buffer as it was. *)
Theorem C7_empty_reads (fuel : nat) (dsts : list (list byte)) (b : Buffer) :
  reachable b ->
  Count b = Returns 0 b ->
  run fuel (map CallRead dsts) b
  = Returns (map (fun dst : list byte => ReadResult 0 None dst) dsts) b.
Proof.
  intros Hreach Hcount.
  destruct (reachable_consistent b Hreach) as [[Hmu [q HR]]|Hmu].
  - rewrite (Count_ok b Hmu) in Hcount. injection Hcount as Hc.
    destruct HR as (Hwf & Hlive & Hcq & Hall).
    destruct q as [|p q].
    + apply run_empty_reads; [| exact Hmu]. repeat split; try assumption; apply Hwf.
    + rewrite Hc in Hcq. unfold len in Hcq. simpl in Hcq. lia.
  - rewrite (Count_blocks b Hmu) in Hcount. discriminate.
Qed.

Lemma C7_empty_reads_witness :
  let b := state_after 7 [CallWrite [x01]; CallRead [x00; x00]] in
  run 7 (map CallRead [[x05; x06]; []; [x07]]) b
  = Returns [ReadResult 0 None [x05; x06]; ReadResult 0 None [];
             ReadResult 0 None [x07]] b.
Proof.
  intros b. apply (C7_empty_reads 7 [[x05; x06]; []; [x07]] b).
  - exists 7%nat, [CallWrite [x01]; CallRead [x00; x00]],
      [WriteResult 1 None; ReadResult 1 None [x01; x00]].
    vm_compute. reflexivity.
  - vm_compute. reflexivity.
Defined.

(** C8, as the claim states it, for every requested size: at the largest
    [int] the sum size + 2 + 1 wraps around to a negative number, and
    [available] returns true on a new buffer, which has no free byte. *)
Lemma C8_available_counterexample :
  available_int max_int NewBuffer = true /\
  free_bytes NewBuffer = 0 /\
  max_int + 2 + 1 > free_bytes NewBuffer /\
  wrap_int (wrap_int (max_int + 2) + 1) = min_int + 2.
Proof.
  vm_compute. repeat split.
Qed.

(** C8, amended: for a size s of at most the largest [int] less 3, on a
    buffer whose head - tail and capacity are in the range of [int],
    [available(s)] takes head - tail as the number of free bytes, adds the
    capacity when that difference is zero or less, and returns true exactly
    when s + 2 + 1 is not greater than it; no result wraps around, and that
    number is the capacity less the live bytes. *)
Theorem C8_available (s : Z) (b : Buffer) :
  min_int <= s <= max_int - 3 ->
  min_int <= head b - tail b <= max_int ->
  len (data b) <= max_int ->
  free_bytes b
  = (if decide (head b - tail b <= 0)
     then head b - tail b + len (data b) else head b - tail b) /\
  available_int s b = available s b /\
  (available_int s b = true <-> ~ (s + 2 + 1 > free_bytes b)) /\
  (available_int s b = false <-> s + 2 + 1 > free_bytes b) /\
  free_bytes b = len (data b) - size b.
Proof.
  intros Hs Hraw Hlen.
  assert (Heq : available_int s b = available s b).
  { unfold available_int, available. cbv zeta.
    rewrite (wrap_int_id (head b - tail b)) by exact Hraw.
    rewrite (wrap_int_id (s + 2)) by (unfold min_int, max_int in *; lia).
    rewrite (wrap_int_id (s + 2 + 1)) by (unfold min_int, max_int in *; lia).
    destruct (decide (head b - tail b <= 0)) as [Hle|Hgt]; [| reflexivity].
    rewrite wrap_int_id; [reflexivity |].
    unfold len in *. unfold min_int, max_int in *. lia. }
  split; [reflexivity |]. split; [exact Heq |]. rewrite Heq.
  split; [| split].
  - rewrite available_iff. lia.
  - pose proof (available_iff s b) as Hiff.
    destruct (available s b); split; intros H; try discriminate; try lia;
      try reflexivity.
  - apply free_bytes_size.
Qed.

Lemma C8_available_witness :
  available_int 1 (mkBuffer false [x01; x02; x00; x00; x00; x00; x07; x08] 6 2 1)
  = true /\
  free_bytes (mkBuffer false [x01; x02; x00; x00; x00; x00; x07; x08] 6 2 1)
  = 4.
Proof.
  destruct (C8_available 1
              (mkBuffer false [x01; x02; x00; x00; x00; x00; x07; x08] 6 2 1))
    as (_ & _ & Ht & _ & _).
  - vm_compute. split; discriminate.
  - vm_compute. split; discriminate.
  - vm_compute. discriminate.
  - split; [| reflexivity]. apply Ht. vm_compute. discriminate.
Defined.

(** C9, as the claim states it: the growth loop has ended once the
    capacity exceeds len(packet) + 3.  After one packet of 2040 bytes the
    capacity is 2048 and 2042 bytes are live; for a packet of 10 bytes the
    capacity exceeds 13, yet [available(10)] is false and Write grows the
    arena to 4096 bytes. *)
Lemma C9_growth_loop_counterexample :
  let b := state_after 7 [CallWrite (replicate 2040 x00)] in
  let p := replicate 10 x00 in
  mutex b = false /\ len (data b) = 2048 /\ size b = 2042 /\
  len (data b) > len p + 3 /\
  available (len p) b = false /\
  len (data (state_after 7 [CallWrite (replicate 2040 x00); CallWrite p]))
  = 4096.
Proof.
  vm_compute. repeat split.
Qed.

(** C9, amended: a Write of less than 65536 bytes on a consistent buffer
    returns (len(packet), nil) and queues the packet; a growth step that
    returns has returned nil and a strictly larger arena; and the growth
    loop ends when the capacity less the live bytes is len(packet) + 3 or
    more, which seven growth steps always reach. *)
Theorem C9_write_succeeds (fuel : nat) (p : list byte) (b : Buffer)
    (q : list (list byte)) :
  Rep b q -> mutex b = false -> (7 <= fuel)%nat -> len p < 65536 ->
  (exists b', Write fuel p b = Returns (len p, None) b' /\
     Rep b' (q ++ [p]) /\ mutex b' = false) /\
  (forall b0 r b1, grow b0 = Returns r b1 ->
     r = None /\ len (data b0) < len (data b1)) /\
  (forall b0, available (len p) b0 = true <->
     len p + 3 <= len (data b0) - size b0) /\
  len p + 3 <= grown 7 (len (data b)) - size b.
Proof.
  intros HR Hmu Hfuel Hp. split; [| split; [| split]].
  - destruct (Write_ok fuel p b q HR Hmu Hfuel Hp) as (b' & Hw & HR' & Hmu' & _).
    eauto.
  - intros b0 r b1 Hg. apply grow_returns in Hg as (-> & Hlen & _).
    split; [reflexivity |]. rewrite Hlen.
    apply newsize_of_bounds. unfold len. lia.
  - intros b0. rewrite available_iff, free_bytes_size. lia.
  - pose proof (wf_size b (proj1 HR)).
    pose proof (grown_7 (len (data b)) ltac:(unfold len; lia)). lia.
Qed.

Lemma C9_write_succeeds_witness :
  exists b', Write 7 [x01; x02; x03] NewBuffer = Returns (3, None) b' /\
    Rep b' [[x01; x02; x03]] /\ mutex b' = false.
Proof.
  apply (C9_write_succeeds 7 [x01; x02; x03] NewBuffer []).
  - unfold Rep, wf. simpl. repeat split; try lia. constructor.
  - reflexivity.
  - lia.
  - vm_compute. reflexivity.
Defined.

(** C10: on an empty buffer a Write of no bytes returns (0, nil) and
    [Count()] becomes 1; the Read that follows returns (0, nil) and leaves
    its destination as it was, just as a Read on the empty buffer does,
    but it takes the record: [Count()] is 0 again and the buffer is
    empty. *)
Theorem C10_zero_length_packet (fuel : nat) (dst : list byte) (b : Buffer) :
  Rep b [] -> mutex b = false -> (7 <= fuel)%nat ->
  exists b1 b2,
    Write fuel [] b = Returns (0, None) b1 /\
    Count b1 = Returns 1 b1 /\
    Read dst b1 = Returns (0, None, dst) b2 /\
    Count b2 = Returns 0 b2 /\
    Rep b2 [] /\
    Read dst b = Returns (0, None, dst) b.
Proof.
  intros HR Hmu Hfuel.
  destruct (Write_ok fuel [] b [] HR Hmu Hfuel ltac:(vm_compute; reflexivity))
    as (b1 & Hw & HR1 & Hmu1 & _).
  destruct (Read_ok dst b1 [] [] HR1 Hmu1 ltac:(unfold len; simpl; lia))
    as (b2 & Hr & HR2 & Hmu2 & _).
  exists b1, b2.
  split; [exact Hw |]. split.
  { rewrite (Count_ok b1 Hmu1). destruct HR1 as (_ & _ & -> & _). reflexivity. }
  split; [exact Hr |]. split.
  { rewrite (Count_ok b2 Hmu2). destruct HR2 as (_ & _ & -> & _). reflexivity. }
  split; [exact HR2 |].
  apply (Read_empty dst b HR Hmu).
Qed.

Lemma C10_zero_length_packet_witness :
  exists b1 b2,
    Write 7 [] NewBuffer = Returns (0, None) b1 /\
    Count b1 = Returns 1 b1 /\
    Read [x07; x08] b1 = Returns (0, None, [x07; x08]) b2 /\
    Count b2 = Returns 0 b2 /\
    Rep b2 [] /\
    Read [x07; x08] NewBuffer = Returns (0, None, [x07; x08]) NewBuffer.
Proof.
  apply (C10_zero_length_packet 7 [x07; x08] NewBuffer).
  - unfold Rep, wf. simpl. repeat split; try lia. constructor.
  - reflexivity.
  - lia.
Defined.

(** * Further properties *)

(** ** The ring and the queue it implements *)

Lemma do_call_model fuel c b q r q' :
  Rep b q -> mutex b = false -> (7 <= fuel)%nat ->
  model_call q c = Some (r, q') ->
  exists b', do_call fuel c b = Returns r b' /\ Rep b' q' /\ mutex b' = false /\
    len (data b) <= len (data b').
Proof.
  intros HR Hmu Hfuel Hm.
  destruct c as [p|dst| |]; simpl in Hm; unfold do_call, bind.
  - case_decide as Hp; injection Hm as <- <-.
    + exists b. rewrite Write_too_big by lia.
      split; [reflexivity |]. split; [exact HR |]. split; [exact Hmu | lia].
    + destruct (Write_ok fuel p b q HR Hmu Hfuel ltac:(lia))
        as (b' & Hw & HR' & Hmu' & Hle).
      exists b'. rewrite Hw. auto.
  - destruct q as [|p q].
    + injection Hm as <- <-. exists b. rewrite (Read_empty dst b HR Hmu).
      split; [reflexivity |]. split; [exact HR |]. split; [exact Hmu | lia].
    + case_decide as Hs; [discriminate |]. injection Hm as <- <-.
      destruct (Read_ok dst b p q HR Hmu ltac:(lia))
        as (b' & Hr & HR' & Hmu' & Hd).
      exists b'. rewrite Hr, Hd.
      split; [reflexivity |]. split; [exact HR' |]. split; [exact Hmu' | lia].
  - injection Hm as <- <-. exists b. rewrite (Count_ok b Hmu).
    destruct HR as (Hwf & Hl & Hc & Hall). rewrite Hc.
    split; [reflexivity |]. split; [repeat split; assumption || apply Hwf |].
    split; [exact Hmu | lia].
  - injection Hm as <- <-. exists b. rewrite (Size_ok b Hmu).
    rewrite (Rep_size b q HR).
    split; [reflexivity |]. split; [exact HR |]. split; [exact Hmu | lia].
Qed.

Lemma run_model fuel cs : forall b q rs q',
  Rep b q -> mutex b = false -> (7 <= fuel)%nat ->
  model_run q cs = Some (rs, q') ->
  exists b', run fuel cs b = Returns rs b' /\ Rep b' q' /\ mutex b' = false /\
    len (data b) <= len (data b').
Proof.
  induction cs as [|c cs IH]; intros b q rs q' HR Hmu Hfuel Hm; simpl in Hm.
  - injection Hm as <- <-. exists b. simpl.
    split; [reflexivity |]. split; [exact HR |]. split; [exact Hmu | lia].
  - destruct (model_call q c) as [[r q1]|] eqn:Hc; [| discriminate].
    destruct (model_run q1 cs) as [[rs1 q2]|] eqn:Hrun; [| discriminate].
    injection Hm as <- <-.
    destruct (do_call_model fuel c b q r q1 HR Hmu Hfuel Hc)
      as (b1 & Hd & HR1 & Hmu1 & Hle1).
    destruct (IH b1 q1 rs1 q2 HR1 Hmu1 Hfuel Hrun)
      as (b2 & Hr & HR2 & Hmu2 & Hle2).
    exists b2. simpl. unfold bind at 1. rewrite Hd.
    unfold bind at 1. rewrite Hr.
    split; [reflexivity |]. split; [exact HR2 |]. split; [exact Hmu2 | lia].
Qed.

Lemma do_call_sound fuel c b q r b' :
  Rep b q -> mutex b = false ->
  do_call fuel c b = Returns r b' -> read_ok r = true ->
  model_call q c = Some (r, queue_step q c).
Proof.
  intros HR Hmu Hc Hok.
  destruct c as [p|dst| |]; simpl; unfold do_call in Hc;
    apply bind_inv in Hc as (r0 & b0 & Hc & Hret); injection Hret as <- <-.
  - destruct (decide (len p >= 65536)) as [Hp|Hp].
    + rewrite Write_too_big in Hc by lia. injection Hc as <- <-.
      rewrite decide_False by lia. reflexivity.
    + apply (Write_returns fuel p b q r0 b0 HR Hmu ltac:(lia)) in Hc as (-> & _).
      rewrite decide_True by lia. reflexivity.
  - destruct q as [|p q].
    + rewrite (Read_empty dst b HR Hmu) in Hc. injection Hc as <- <-. reflexivity.
    + destruct (decide (len dst < len p)) as [Hs|Hs].
      * destruct (Read_short dst b p q HR Hmu Hs) as (b1 & Hrs & _).
        rewrite Hrs in Hc. injection Hc as <- <-. discriminate.
      * destruct (Read_ok dst b p q HR Hmu ltac:(lia)) as (b1 & Hro & _).
        rewrite Hro in Hc. injection Hc as <- <-. reflexivity.
  - rewrite (Count_ok b Hmu) in Hc. injection Hc as <- <-.
    destruct HR as (_ & _ & -> & _). reflexivity.
  - rewrite (Size_ok b Hmu) in Hc. injection Hc as <- <-.
    rewrite (Rep_size b q HR). reflexivity.
Qed.

Lemma run_sound fuel cs : forall b q rs b',
  Rep b q -> mutex b = false ->
  run fuel cs b = Returns rs b' -> forallb read_ok rs = true ->
  model_run q cs = Some (rs, fold_left queue_step cs q).
Proof.
  induction cs as [|c cs IH]; intros b q rs b' HR Hmu Hrun Hok; simpl in *.
  - injection Hrun as <- <-. reflexivity.
  - apply bind_inv in Hrun as (r & b1 & Hc & Hrun).
    apply bind_inv in Hrun as (rs' & b2 & Hrun & Hret).
    injection Hret as <- <-. simpl in Hok.
    apply andb_true_iff in Hok as [Hok1 Hok2].
    rewrite (do_call_sound fuel c b q r b1 HR Hmu Hc Hok1).
    destruct (do_call_step fuel c b q r b1 HR Hmu Hc Hok1) as [HR1 Hmu1].
    rewrite (IH b1 _ rs' b2 HR1 Hmu1 Hrun Hok2). reflexivity.
Qed.

(** X1: any interleaving of Writes, Reads into destinations that are long
    enough, Counts and Sizes on a new buffer returns what a queue of
    packets returns, call by call, and leaves in the arena the records of
    the packets still queued. *)
Theorem queue_refinement (fuel : nat) (cs : list call) (rs : list result)
    (q : list (list byte)) :
  (7 <= fuel)%nat ->
  model_run [] cs = Some (rs, q) ->
  exists b,
    run fuel cs NewBuffer = Returns rs b /\
    live b = flat q /\
    Count b = Returns (len q) b /\
    Size b = Returns (queued_bytes q) b.
Proof.
  intros Hfuel Hm.
  destruct (run_model fuel cs NewBuffer [] rs q Rep_new eq_refl Hfuel Hm)
    as (b & Hrun & HR & Hmu & _).
  exists b. split; [exact Hrun |]. split; [apply HR |]. split.
  - rewrite (Count_ok b Hmu). destruct HR as (_ & _ & -> & _). reflexivity.
  - rewrite (Size_ok b Hmu), (Rep_size b q HR). reflexivity.
Qed.

Lemma queue_refinement_witness :
  exists b,
    run 7 [CallWrite [x01; x02]; CallWrite [x03]; CallRead [x00; x00; x00];
           CallCount; CallWrite []; CallRead [x09]; CallSize; CallRead [x08];
           CallRead [x07]] NewBuffer
    = Returns [WriteResult 2 None; WriteResult 1 None;
               ReadResult 2 None [x01; x02; x00]; CountResult 1;
               WriteResult 0 None; ReadResult 1 None [x03]; SizeResult 2;
               ReadResult 0 None [x08]; ReadResult 0 None [x07]] b /\
    live b = [].
Proof.
  destruct (queue_refinement 7
    [CallWrite [x01; x02]; CallWrite [x03]; CallRead [x00; x00; x00];
     CallCount; CallWrite []; CallRead [x09]; CallSize; CallRead [x08];
     CallRead [x07]]
    [WriteResult 2 None; WriteResult 1 None;
     ReadResult 2 None [x01; x02; x00]; CountResult 1;
     WriteResult 0 None; ReadResult 1 None [x03]; SizeResult 2;
     ReadResult 0 None [x08]; ReadResult 0 None [x07]] [])
    as (b & Hrun & Hl & _).
  - lia.
  - vm_compute. reflexivity.
  - exists b. split; [exact Hrun | exact Hl].
Defined.

(** X2: whatever the fuel, the results of calls that returned and among
    which no Read failed are those of the queue of packets. *)
Theorem queue_results (fuel : nat) (cs : list call) (rs : list result)
    (b : Buffer) :
  run fuel cs NewBuffer = Returns rs b ->
  forallb read_ok rs = true ->
  model_run [] cs = Some (rs, queued cs).
Proof.
  intros Hrun Hok.
  exact (run_sound fuel cs NewBuffer [] rs b Rep_new eq_refl Hrun Hok).
Qed.

Lemma queue_results_witness :
  let cs := [CallWrite [x01; x02]; CallRead [x00; x00; x00]; CallRead [x05]] in
  model_run [] cs
  = Some ([WriteResult 2 None; ReadResult 2 None [x01; x02; x00];
           ReadResult 0 None [x05]], []).
Proof.
  intros cs.
  destruct (run 7 cs NewBuffer) as [rs b| | |] eqn:Hrun;
    try (vm_compute in Hrun; discriminate).
  assert (Hr : returned (run 7 cs NewBuffer) = Some rs)
    by (rewrite Hrun; reflexivity).
  vm_compute in Hr. injection Hr as <-.
  apply (queue_results 7 cs _ b Hrun). reflexivity.
Defined.

(** ** No panic *)

Lemma grow_until_outcome fuel need b :
  wf b ->
  grow_until fuel need b <> Panics /\ grow_until fuel need b <> Blocks /\
  ((7 <= fuel)%nat -> 0 <= need < 65536 -> grow_until fuel need b <> OutOfFuel).
Proof.
  intros Hwf. split; [| split].
  - revert b Hwf. induction fuel as [|fuel IH]; intros b Hwf; simpl.
    + destruct (available need b); discriminate.
    + destruct (available need b); [discriminate |].
      destruct (grow_ok b Hwf) as (b1 & Hg & _ & _ & _ & _ & _ & _ & _ & Hr).
      rewrite Hg. apply IH. apply in_range_wf. exact Hr.
  - revert b Hwf. induction fuel as [|fuel IH]; intros b Hwf; simpl.
    + destruct (available need b); discriminate.
    + destruct (available need b); [discriminate |].
      destruct (grow_ok b Hwf) as (b1 & Hg & _ & _ & _ & _ & _ & _ & _ & Hr).
      rewrite Hg. apply IH. apply in_range_wf. exact Hr.
  - intros Hfuel Hneed.
    pose proof (wf_size b Hwf) as Hsz.
    destruct (grow_until_enough fuel need b Hwf) as (b1 & Hg & _).
    { pose proof (grown_enough fuel (len (data b)) Hfuel ltac:(unfold len; lia)).
      lia. }
    rewrite Hg. discriminate.
Qed.

Lemma Write_outcome fuel p b q :
  Rep b q -> mutex b = false ->
  Write fuel p b <> Panics /\ Write fuel p b <> Blocks /\
  ((7 <= fuel)%nat -> Write fuel p b <> OutOfFuel).
Proof.
  intros HR Hmu.
  destruct (decide (len p >= 65536)) as [Hp|Hp].
  { rewrite Write_too_big by lia. repeat split; intros; discriminate. }
  destruct (grow_until_outcome fuel (len p) (set_mutex true b) (proj1 HR))
    as (Hgp & Hgb & Hgo).
  destruct (grow_until fuel (len p) (set_mutex true b)) as [e b1| | |] eqn:Hg.
  - destruct (Write_after_growth fuel p b q e b1 HR Hmu ltac:(lia) Hg)
      as (b2 & Hw & _).
    rewrite Hw. repeat split; intros; discriminate.
  - exfalso. apply Hgp. reflexivity.
  - exfalso. apply Hgb. reflexivity.
  - assert (Hw : Write fuel p b = OutOfFuel).
    { unfold Write. rewrite decide_False by lia.
      rewrite (bind_Returns _ _ _ _ _ (Lock_ok b Hmu)).
      unfold bind. rewrite Hg. reflexivity. }
    rewrite Hw. repeat split; try discriminate.
    intros Hfuel. exfalso. apply Hgo; [exact Hfuel | unfold len in *; lia | reflexivity].
Qed.

Lemma Read_returns dst b q :
  Rep b q -> mutex b = false -> exists r b', Read dst b = Returns r b'.
Proof.
  intros HR Hmu. destruct q as [|p q].
  - rewrite (Read_empty dst b HR Hmu). eauto.
  - destruct (decide (len dst < len p)) as [Hs|Hs].
    + destruct (Read_short dst b p q HR Hmu Hs) as (b1 & Hrs & _). eauto.
    + destruct (Read_ok dst b p q HR Hmu ltac:(lia)) as (b1 & Hro & _). eauto.
Qed.

Lemma do_call_outcome fuel c b :
  consistent b \/ mutex b = true ->
  do_call fuel c b <> Panics /\
  ((7 <= fuel)%nat -> do_call fuel c b <> OutOfFuel).
Proof.
  intros [[Hmu [q HR]]|Hmu]; destruct c as [p|dst| |]; unfold do_call, bind, ret.
  - destruct (Write_outcome fuel p b q HR Hmu) as (Hp & Hb & Ho).
    destruct (Write fuel p b); try congruence.
    + split; [discriminate | intros _; discriminate].
    + split; [discriminate |]. intros Hf _. apply (Ho Hf). reflexivity.
  - destruct (Read_returns dst b q HR Hmu) as (r & b' & ->).
    split; [discriminate | intros _; discriminate].
  - rewrite (Count_ok b Hmu). split; [discriminate | intros _; discriminate].
  - rewrite (Size_ok b Hmu). split; [discriminate | intros _; discriminate].
  - destruct (decide (len p < 65536)) as [Hp|Hp].
    + rewrite (Write_blocks fuel p b Hp Hmu).
      split; [discriminate | intros _; discriminate].
    + rewrite Write_too_big by lia.
      split; [discriminate | intros _; discriminate].
  - rewrite (Read_blocks dst b Hmu). split; [discriminate | intros _; discriminate].
  - rewrite (Count_blocks b Hmu). split; [discriminate | intros _; discriminate].
  - rewrite (Size_blocks b Hmu). split; [discriminate | intros _; discriminate].
Qed.

Lemma run_outcome fuel cs : forall b,
  consistent b \/ mutex b = true ->
  run fuel cs b <> Panics /\
  ((7 <= fuel)%nat -> run fuel cs b <> OutOfFuel).
Proof.
  induction cs as [|c cs IH]; intros b Hb; simpl.
  - split; [discriminate | intros _; discriminate].
  - destruct (do_call_outcome fuel c b Hb) as [Hp Ho].
    unfold bind, ret.
    destruct (do_call fuel c b) as [r b1| | |] eqn:Hc.
    + assert (Hb1 : consistent b1 \/ mutex b1 = true).
      { destruct Hb as [Hb|Hb].
        - exact (do_call_consistent fuel c b r b1 Hb Hc).
        - right. rewrite (do_call_held fuel c b r b1 Hb Hc). exact Hb. }
      destruct (IH b1 Hb1) as [Hp1 Ho1].
      destruct (run fuel cs b1); try congruence.
      * split; [discriminate | intros _; discriminate].
      * split; [discriminate | intros _; discriminate].
      * split; [discriminate |]. intros Hf _. apply (Ho1 Hf). reflexivity.
    + congruence.
    + split; [discriminate | intros _; discriminate].
    + split; [discriminate |]. intros Hf _. apply (Ho Hf). reflexivity.
Qed.

(** X3: no sequence of calls on a new buffer panics: no index or slice is
    ever out of range and no free mutex is ever unlocked; and seven
    growth steps are enough for every Write of the sequence. *)
Theorem calls_never_panic (fuel : nat) (cs : list call) :
  run fuel cs NewBuffer <> Panics /\
  ((7 <= fuel)%nat -> run fuel cs NewBuffer <> OutOfFuel).
Proof.
  apply run_outcome. left. split; [reflexivity |]. exists []. exact Rep_new.
Qed.

Lemma calls_never_panic_witness :
  run 7 [CallWrite [x01; x02]; CallRead [x00]; CallCount] NewBuffer <> Panics /\
  run 7 [CallWrite [x01; x02]; CallRead [x00]; CallCount] NewBuffer <> OutOfFuel.
Proof.
  destruct (calls_never_panic 7 [CallWrite [x01; x02]; CallRead [x00]; CallCount])
    as [Hp Ho].
  split; [exact Hp | apply Ho; lia].
Defined.

(** X4: once a Read has failed on a short destination the buffer is of no
    more use: [Count], [Size], every Read and every Write of less than
    65536 bytes block on the mutex the Read left held. *)
Theorem short_read_blocks_all (dst : list byte) (b : Buffer) (p : list byte)
    (q : list (list byte)) :
  Rep b (p :: q) -> mutex b = false -> len dst < len p ->
  exists e b',
    Read dst b = Returns (0, Some e, dst) b' /\
    Count b' = Blocks /\ Size b' = Blocks /\
    (forall dst', Read dst' b' = Blocks) /\
    (forall fuel p', len p' < 65536 -> Write fuel p' b' = Blocks) /\
    (forall fuel cs rs b'', run fuel cs b' = Returns rs b'' ->
       b'' = b' /\
       Forall (fun r => r = WriteResult 0 (Some ErrPacketTooBig)) rs).
Proof.
  intros HR Hmu Hs.
  destruct (Read_short dst b p q HR Hmu Hs) as (b' & Hrd & Hmu' & _).
  eexists _, b'. split; [exact Hrd |].
  split; [exact (Count_blocks b' Hmu') |].
  split; [exact (Size_blocks b' Hmu') |].
  split; [intros dst'; exact (Read_blocks dst' b' Hmu') |].
  split; [intros fuel p' Hp'; exact (Write_blocks fuel p' b' Hp' Hmu') |].
  intros fuel cs. induction cs as [|c cs IH]; intros rs b'' Hrun; simpl in Hrun.
  - injection Hrun as <- <-. split; [reflexivity | constructor].
  - apply bind_inv in Hrun as (r & b1 & Hc & Hrun).
    apply bind_inv in Hrun as (rs' & b2 & Hrun & Hret).
    injection Hret as <- <-.
    pose proof (do_call_held fuel c b' r b1 Hmu' Hc) as ->.
    destruct (IH rs' b2 Hrun) as [-> Hall]. split; [reflexivity |].
    constructor; [| exact Hall].
    destruct c as [p'|dst'| |]; unfold do_call in Hc;
      apply bind_inv in Hc as (r0 & b0 & Hc & Hret); injection Hret as <- _.
    + destruct (decide (len p' < 65536)) as [Hp'|Hp'].
      * rewrite (Write_blocks fuel p' b' Hp' Hmu') in Hc. discriminate.
      * rewrite Write_too_big in Hc by lia. injection Hc as <- _. reflexivity.
    + rewrite (Read_blocks dst' b' Hmu') in Hc. discriminate.
    + rewrite (Count_blocks b' Hmu') in Hc. discriminate.
    + rewrite (Size_blocks b' Hmu') in Hc. discriminate.
Qed.

Lemma short_read_blocks_all_witness :
  let b := mkBuffer false [x00; x03; x01; x02; x03; x00; x00; x00] 0 5 1 in
  exists e b',
    Read [x00] b = Returns (0, Some e, [x00]) b' /\
    Count b' = Blocks /\ Size b' = Blocks.
Proof.
  intros b.
  destruct (short_read_blocks_all [x00] b [x01; x02; x03] [])
    as (e & b' & Hr & Hc & Hs & _).
  - unfold Rep, wf. simpl. repeat split; try lia. repeat constructor.
  - reflexivity.
  - vm_compute. reflexivity.
  - exists e, b'. auto.
Defined.

(** ** The capacity *)

Lemma newsize_of_upper c :
  0 <= c -> newsize_of c <= Z.max 2048 (2 * c).
Proof.
  intros Hc. unfold newsize_of, minSize, cutoffSize.
  repeat case_decide; Z.div_mod_to_equations; lia.
Qed.

(** The arena the growth loop leaves: the one it found when the record
    fits, else one grown to at most twice what the record needed (and to
    2048 bytes at least). *)
Lemma grow_until_capacity fuel need b r b' :
  wf b -> grow_until fuel need b = Returns r b' ->
  (available need b = true /\ b' = b) \/
  (available need b = false /\
   2048 <= len (data b') <= Z.max 2048 (2 * (size b + need + 2))).
Proof.
  revert b. induction fuel as [|fuel IH]; intros b Hwf; simpl.
  - destruct (available need b) eqn:Ha; [| discriminate].
    intros [= <- <-]. left. auto.
  - destruct (available need b) eqn:Ha.
    + intros [= <- <-]. left. auto.
    + destruct (grow_ok b Hwf)
        as (b1 & Hg & Hlive & Hh & Ht & Hlen & Hcount & Hmu & _ & Hr).
      rewrite Hg. intros Hrec. right. split; [reflexivity |].
      assert (Hs : size b1 = size b).
      { pose proof (wf_size b Hwf). unfold size at 1. rewrite Hh, Ht.
        rewrite decide_False by lia. lia. }
      assert (Hna : ~ need + 2 + 1 <= free_bytes b).
      { intros Hle. apply available_iff in Hle. congruence. }
      rewrite free_bytes_size in Hna.
      pose proof (wf_size b Hwf) as Hsz.
      pose proof (newsize_of_bounds (len (data b)) ltac:(unfold len; lia)) as [_ Hmin].
      pose proof (newsize_of_upper (len (data b)) ltac:(unfold len; lia)) as Hup.
      unfold minSize in Hmin.
      destruct (IH b1 (in_range_wf _ Hr) Hrec) as [[_ ->]|[_ Hb]].
      * rewrite Hlen. lia.
      * rewrite Hs in Hb. exact Hb.
Qed.

Lemma put_byte_len c b u b' :
  put_byte c b = Returns u b' -> len (data b') = len (data b).
Proof.
  destruct b as [mu d h t n]. unfold put_byte, store. msimpl.
  case_decide; msimpl; [| discriminate].
  case_bool_decide; msimpl; intros [= _ <-]; fields;
    unfold len; rewrite length_insert; reflexivity.
Qed.

Lemma store_payload_len p b u b' :
  store_payload p b = Returns u b' -> len (data b') = len (data b).
Proof.
  destruct b as [mu d h t n]. unfold store_payload. msimpl.
  destruct (copy_at d t p) as [[d1 k]|] eqn:Hc; msimpl; [| discriminate].
  apply length_copy_at in Hc. simpl in Hc.
  case_decide; msimpl.
  - destruct (slice p k (len p)) as [rest|]; msimpl; [| discriminate].
    pose proof (length_copy d1 rest) as Hl.
    destruct (copy d1 rest) as [d2 m]. simpl in Hl.
    intros [= _ <-]. fields. unfold len. congruence.
  - intros [= _ <-]. fields. unfold len. congruence.
Qed.

(** The arena a Write leaves is the one its growth loop left. *)
Lemma Write_data_len fuel p b r b' :
  len p < 65536 -> mutex b = false -> Write fuel p b = Returns r b' ->
  exists e b1,
    grow_until fuel (len p) (set_mutex true b) = Returns e b1 /\
    len (data b') = len (data b1).
Proof.
  intros Hp Hmu Hw. unfold Write in Hw. rewrite decide_False in Hw by lia.
  rewrite (bind_Returns _ _ _ _ _ (Lock_ok b Hmu)) in Hw.
  apply bind_inv in Hw as (e & b1 & Hg & Hw).
  exists e, b1. split; [exact Hg |].
  pose proof (grow_until_nil _ _ _ _ _ Hg) as ->.
  apply bind_inv in Hw as (u1 & b2 & Hsl & Hw).
  apply bind_inv in Hw as (u2 & b3 & Hsp & Hw).
  apply bind_inv in Hw as (u3 & b4 & Hm & Hw).
  apply bind_inv in Hw as (u4 & b5 & Hu & Hw).
  injection Hw as _ <-.
  unfold store_length in Hsl.
  apply bind_inv in Hsl as (u5 & b6 & Hp1 & Hp2).
  apply put_byte_len in Hp1. apply put_byte_len in Hp2.
  apply store_payload_len in Hsp.
  injection Hm as _ <-.
  unfold Unlock in Hu. simpl in Hu. destruct (mutex b3); [| discriminate].
  injection Hu as _ <-. simpl. congruence.
Qed.

(** X5: with seven growth steps a Write of fewer than 65536 bytes on a
    consistent buffer returns, and it keeps the arena when the record fits
    with the reserved byte; otherwise it leaves an arena of at least 2048
    bytes and of at most twice the bytes that were needed, live ones
    included. *)
Theorem Write_capacity (fuel : nat) (p : list byte) (b : Buffer)
    (q : list (list byte)) :
  Rep b q -> mutex b = false -> len p < 65536 -> (7 <= fuel)%nat ->
  exists b',
    Write fuel p b = Returns (len p, None) b' /\
    ((available (len p) b = true /\ len (data b') = len (data b)) \/
     (available (len p) b = false /\
      2048 <= len (data b') <= Z.max 2048 (2 * (size b + len p + 2)))).
Proof.
  intros HR Hmu Hp Hfuel.
  destruct (Write_ok fuel p b q HR Hmu Hfuel Hp) as (b' & Hw & _).
  exists b'. split; [exact Hw |].
  destruct (Write_data_len fuel p b _ b' Hp Hmu Hw) as (e & b1 & Hg & Hlen).
  rewrite Hlen.
  destruct (grow_until_capacity fuel (len p) (set_mutex true b) e b1
              (proj1 HR) Hg) as [[Ha ->]|[Ha Hb]].
  - left. split; [exact Ha | reflexivity].
  - right. split; [exact Ha | exact Hb].
Qed.

Lemma Write_capacity_witness :
  exists b',
    Write 7 [x01; x02; x03] NewBuffer = Returns (3, None) b' /\
    len (data b') = 2048.
Proof.
  destruct (Write_capacity 7 [x01; x02; x03] NewBuffer [])
    as (b' & Hw & [[Ha _]|[_ Hc]]).
  - unfold Rep, wf. simpl. repeat split; try lia. constructor.
  - reflexivity.
  - vm_compute. reflexivity.
  - lia.
  - vm_compute in Ha. discriminate.
  - exists b'. split; [exact Hw |].
    assert (Hm : Z.max 2048 (2 * (size NewBuffer + len [x01; x02; x03] + 2))
                 = 2048) by reflexivity.
    rewrite Hm in Hc. lia.
Defined.

Lemma Write_grows fuel p b q r b' :
  Rep b q -> mutex b = false -> len p < 65536 ->
  Write fuel p b = Returns r b' ->
  len (data b) <= len (data b').
Proof.
  intros HR Hmu Hp Hw.
  destruct (Write_data_len fuel p b r b' Hp Hmu Hw) as (e & b1 & Hg & Hlen).
  destruct (Write_after_growth fuel p b q e b1 HR Hmu Hp Hg)
    as (b2 & Hw2 & _ & _ & Hle).
  rewrite Hw2 in Hw. injection Hw as _ <-. exact Hle.
Qed.

Lemma do_call_capacity fuel c b r b' :
  consistent b \/ mutex b = true ->
  do_call fuel c b = Returns r b' ->
  len (data b) <= len (data b') /\
  (len (data b') = len (data b) \/ 2048 <= len (data b')).
Proof.
  intros [[Hmu [q HR]]|Hmu] Hc.
  - destruct c as [p|dst| |]; unfold do_call in Hc;
      apply bind_inv in Hc as (r0 & b0 & Hc & Hret); injection Hret as _ <-.
    + destruct (decide (len p < 65536)) as [Hp|Hp].
      * split; [exact (Write_grows fuel p b q r0 b0 HR Hmu Hp Hc) |].
        destruct (Write_data_len fuel p b r0 b0 Hp Hmu Hc)
          as (e & b1 & Hg & Hlen).
        rewrite Hlen.
        destruct (grow_until_capacity fuel (len p) (set_mutex true b) e b1
                    (proj1 HR) Hg) as [[_ ->]|[_ Hb]];
          [left; reflexivity | right; lia].
      * rewrite Write_too_big in Hc by lia. injection Hc as _ <-.
        split; [lia | left; reflexivity].
    + destruct q as [|p q].
      * rewrite (Read_empty dst b HR Hmu) in Hc. injection Hc as _ <-.
        split; [lia | left; reflexivity].
      * destruct (decide (len dst < len p)) as [Hs|Hs].
        -- destruct (Read_short dst b p q HR Hmu Hs)
             as (b1 & Hrs & _ & _ & _ & _ & _ & Hd).
           rewrite Hrs in Hc. injection Hc as _ <-. rewrite Hd.
           split; [lia | left; reflexivity].
        -- destruct (Read_ok dst b p q HR Hmu ltac:(lia))
             as (b1 & Hro & _ & _ & Hd).
           rewrite Hro in Hc. injection Hc as _ <-. rewrite Hd.
           split; [lia | left; reflexivity].
    + rewrite (Count_ok b Hmu) in Hc. injection Hc as _ <-.
      split; [lia | left; reflexivity].
    + rewrite (Size_ok b Hmu) in Hc. injection Hc as _ <-.
      split; [lia | left; reflexivity].
  - rewrite (do_call_held fuel c b r b' Hmu Hc).
    split; [lia | left; reflexivity].
Qed.

Lemma run_capacity fuel cs : forall b rs b',
  consistent b \/ mutex b = true ->
  run fuel cs b = Returns rs b' ->
  len (data b) <= len (data b') /\
  (len (data b') = len (data b) \/ 2048 <= len (data b')).
Proof.
  induction cs as [|c cs IH]; intros b rs b' Hb Hrun; simpl in Hrun.
  - injection Hrun as _ <-. split; [lia | left; reflexivity].
  - apply bind_inv in Hrun as (r & b1 & Hc & Hrun).
    apply bind_inv in Hrun as (rs' & b2 & Hrun & Hret).
    injection Hret as _ <-.
    destruct (do_call_capacity fuel c b r b1 Hb Hc) as [Hle1 Hor1].
    assert (Hb1 : consistent b1 \/ mutex b1 = true).
    { destruct Hb as [Hb|Hb].
      - exact (do_call_consistent fuel c b r b1 Hb Hc).
      - right. rewrite (do_call_held fuel c b r b1 Hb Hc). exact Hb. }
    destruct (IH b1 rs' b2 Hb1 Hrun) as [Hle2 Hor2].
    split; [lia |]. destruct Hor2 as [He|Hge]; [| right; exact Hge].
    rewrite He. destruct Hor1 as [He1|Hge1]; [left; exact He1 | right; exact Hge1].
Qed.

(** X6: the arena never shrinks: after any further calls on a buffer that
    calls on a new buffer have left, the capacity is what it was or more;
    and it is 0, before the first growth, or 2048 bytes at least. *)
Theorem capacity_never_shrinks (fuel : nat) (cs : list call)
    (rs : list result) (b b' : Buffer) :
  reachable b ->
  run fuel cs b = Returns rs b' ->
  len (data b) <= len (data b') /\
  (len (data b') = 0 \/ 2048 <= len (data b')).
Proof.
  intros Hreach Hrun.
  pose proof (reachable_consistent b Hreach) as Hb.
  destruct (run_capacity fuel cs b rs b' Hb Hrun) as [Hle Hor].
  split; [exact Hle |].
  destruct Hreach as (fuel0 & cs0 & rs0 & Hrun0).
  destruct (run_capacity fuel0 cs0 NewBuffer rs0 b
              (or_introl (conj eq_refl (ex_intro _ [] Rep_new))) Hrun0)
    as [_ Hor0].
  change (len (data NewBuffer)) with 0 in Hor0.
  destruct Hor as [He|Hge]; [| right; exact Hge].
  rewrite He. exact Hor0.
Qed.

Lemma capacity_never_shrinks_witness :
  match run 7 [CallWrite [x01]; CallRead [x00]] NewBuffer with
  | Returns _ b' => 0 <= len (data b') /\ (len (data b') = 0 \/ 2048 <= len (data b'))
  | _ => True
  end.
Proof.
  destruct (run 7 [CallWrite [x01]; CallRead [x00]] NewBuffer)
    as [rs b'| | |] eqn:Hrun; try exact I.
  apply (capacity_never_shrinks 7 [CallWrite [x01]; CallRead [x00]] rs
           NewBuffer b'); [| exact Hrun].
  exists 7%nat, [], []. reflexivity.
Defined.

(** ** Invariants of the cursors *)




Lemma get_byte_keeps c b b' :
  get_byte b = Returns c b' ->
  mutex b' = mutex b /\ tail b' = tail b /\ data b' = data b /\
  count b' = count b.
Proof.
  destruct b as [mu d h t n]. unfold get_byte. msimpl.
  destruct (index d h); msimpl; [| discriminate].
  case_bool_decide; msimpl; intros [= _ <-]; auto.
Qed.

Lemma decode_size_keeps n b b' :
  decode_size b = Returns n b' ->
  mutex b' = mutex b /\ tail b' = tail b /\ data b' = data b /\
  count b' = count b.
Proof.
  unfold decode_size. intros H.
  apply bind_inv in H as (n1 & b1 & H1 & H).
  apply bind_inv in H as (n2 & b2 & H2 & H).
  injection H as _ <-.
  apply get_byte_keeps in H1 as (? & ? & ? & ?).
  apply get_byte_keeps in H2 as (? & ? & ? & ?).
  repeat split; congruence.
Qed.

Lemma copy_out_keeps packet copied b x b' :
  copy_out packet copied b = Returns x b' -> b' = b.
Proof.
  destruct b as [mu d h t n]. unfold copy_out. msimpl.
  case_decide.
  - destruct (slice d h (h + copied)); msimpl; [| discriminate].
    intros [= _ <-]. reflexivity.
  - destruct (slice d h (len d)) as [s1|]; msimpl; [| discriminate].
    destruct (copy packet s1) as [p1 k].
    destruct (slice d 0 (copied - k)) as [s2|]; msimpl; [| discriminate].
    destruct (copy_at p1 k s2); msimpl; [| discriminate].
    intros [= _ <-]. reflexivity.
Qed.

(** The reset of [Read]: when the cursors meet they are both put at 0. *)
Lemma advance_head_by_reset m b u b' :
  advance_head_by m b = Returns u b' ->
  mutex b' = mutex b /\ data b' = data b /\ count b' = count b /\
  (head b' = tail b' -> head b' = 0 /\ tail b' = 0).
Proof.
  destruct b as [mu d h t n]. unfold advance_head_by. msimpl.
  repeat (case_bool_decide; msimpl); intros [= _ <-]; fields;
    repeat split; intros; try lia; congruence.
Qed.

Lemma Read_reset dst b r b' :
  mutex b = false -> Read dst b = Returns r b' -> mutex b' = false ->
  b' = b \/ (head b' = tail b' -> head b' = 0 /\ tail b' = 0).
Proof.
  intros Hmu Hr Hmu'. unfold Read in Hr.
  rewrite (bind_Returns _ _ _ _ _ (Lock_ok b Hmu)) in Hr.
  rewrite (bind_Returns get _ _ _ _ eq_refl) in Hr.
  case_decide as Hne.
  - right.
    apply bind_inv in Hr as (n & b1 & Hd & Hr). cbv zeta in Hr.
    apply decode_size_keeps in Hd as (Hm1 & _).
    case_decide as Hs.
    + injection Hr as _ <-. simpl in Hm1. congruence.
    + apply bind_inv in Hr as (x & b2 & Hc & Hr).
      apply copy_out_keeps in Hc as ->.
      apply bind_inv in Hr as (u & b3 & Ha & Hr).
      apply advance_head_by_reset in Ha as (_ & _ & _ & Hreset).
      apply bind_inv in Hr as (u1 & b4 & Hm & Hr). injection Hm as _ <-.
      apply bind_inv in Hr as (u2 & b5 & Hu & Hr). injection Hr as _ <-.
      unfold Unlock in Hu. simpl in Hu. destruct (mutex b3); [| discriminate].
      injection Hu as _ <-. simpl. exact Hreset.
  - left. unfold Unlock, bind, ret in Hr. simpl in Hr. injection Hr as _ <-.
    destruct b as [mu d h t n]. simpl in *. subst mu. reflexivity.
Qed.

Lemma do_call_reset fuel c b r b' :
  consistent b -> (head b = tail b -> head b = 0 /\ tail b = 0) ->
  do_call fuel c b = Returns r b' -> mutex b' = false ->
  head b' = tail b' -> head b' = 0 /\ tail b' = 0.
Proof.
  intros [Hmu [q HR]] Hinv Hc Hmu'.
  destruct c as [p|dst| |]; unfold do_call in Hc;
    apply bind_inv in Hc as (r0 & b0 & Hc & Hret); injection Hret as _ <-.
  - destruct (decide (len p < 65536)) as [Hp|Hp].
    + apply (Write_returns fuel p b q r0 b0 HR Hmu Hp) in Hc as (_ & HR' & _).
      intros He. exfalso.
      destruct q as [|p0 q]; simpl in HR'.
      * pose proof (Rep_nonempty_in_range b0 p [] HR') as Hr.
        apply (live_nil_iff b0 Hr) in He.
        destruct HR' as (_ & Hl & _). rewrite He in Hl. discriminate.
      * pose proof (Rep_nonempty_in_range b0 p0 (q ++ [p]) HR') as Hr.
        apply (live_nil_iff b0 Hr) in He.
        destruct HR' as (_ & Hl & _). rewrite He in Hl. discriminate.
    + rewrite Write_too_big in Hc by lia. injection Hc as _ <-. exact Hinv.
  - destruct (Read_reset dst b r0 b0 Hmu Hc Hmu') as [->|H]; assumption.
  - rewrite (Count_ok b Hmu) in Hc. injection Hc as _ <-. exact Hinv.
  - rewrite (Size_ok b Hmu) in Hc. injection Hc as _ <-. exact Hinv.
Qed.

Lemma run_reset fuel cs : forall b rs b',
  consistent b -> (head b = tail b -> head b = 0 /\ tail b = 0) ->
  run fuel cs b = Returns rs b' -> mutex b' = false ->
  head b' = tail b' -> head b' = 0 /\ tail b' = 0.
Proof.
  induction cs as [|c cs IH]; intros b rs b' Hb Hinv Hrun Hmu'; simpl in Hrun.
  - injection Hrun as _ <-. exact Hinv.
  - apply bind_inv in Hrun as (r & b1 & Hc & Hrun).
    apply bind_inv in Hrun as (rs' & b2 & Hrun & Hret).
    injection Hret as _ <-.
    destruct (do_call_consistent fuel c b r b1 Hb Hc) as [Hb1|Hheld].
    + apply (IH b1 rs' b2 Hb1); try assumption.
      apply (do_call_reset fuel c b r b1 Hb Hinv Hc). apply Hb1.
    + exfalso.
      destruct (run_consistent fuel cs b1 rs' b2 (or_intror Hheld) Hrun)
        as [[Hf _]|Ht].
      * assert (Hkeep : forall cs0 rs0 b0, run fuel cs0 b1 = Returns rs0 b0 -> b0 = b1).
        { induction cs0 as [|c0 cs0 IH0]; intros rs0 b0 H0; simpl in H0.
          - injection H0 as _ <-. reflexivity.
          - apply bind_inv in H0 as (r1 & b3 & Hc0 & H0).
            apply bind_inv in H0 as (rs1 & b4 & H0 & Hret0).
            injection Hret0 as _ <-.
            pose proof (do_call_held fuel c0 b1 r1 b3 Hheld Hc0) as ->.
            exact (IH0 rs1 b4 H0). }
        rewrite (Hkeep cs rs' b2 Hrun) in Hf. congruence.
      * congruence.
Qed.

(** X8: a buffer that calls on a new buffer have left empty, with the
    mutex free, has both cursors at 0: the Read that took the last packet
    has reset them, so the next record is stored from the start of the
    arena. *)
Theorem empty_cursors_at_zero (b : Buffer) :
  reachable b -> mutex b = false -> head b = tail b ->
  head b = 0 /\ tail b = 0.
Proof.
  intros (fuel & cs & rs & Hrun) Hmu.
  apply (run_reset fuel cs NewBuffer rs b); try assumption.
  - split; [reflexivity |]. exists []. exact Rep_new.
  - intros _. split; reflexivity.
Qed.

Lemma empty_cursors_at_zero_witness :
  let b := state_after 7 [CallWrite [x01; x02]; CallWrite [x03];
                          CallRead [x00; x00]; CallRead [x00; x00]] in
  head b = 0 /\ tail b = 0.
Proof.
  intros b. apply (empty_cursors_at_zero b).
  - exists 7%nat, [CallWrite [x01; x02]; CallWrite [x03];
                   CallRead [x00; x00]; CallRead [x00; x00]],
      [WriteResult 2 None; WriteResult 1 None; ReadResult 2 None [x01; x02];
       ReadResult 1 None [x03; x00]].
    vm_compute. reflexivity.
  - vm_compute. reflexivity.
  - vm_compute. reflexivity.
Defined.

(** ** The header, and what Read returns on any buffer *)

Lemma header_decode_mod n :
  Z.lor (uint16 (Z.shiftl (byteZ (uint8 (Z.shiftr n 8))) 8))
        (byteZ (uint8 n)) = n mod 65536.
Proof.
  rewrite !byteZ_uint8. unfold uint16.
  change 256 with (2 ^ 8). change 65536 with (2 ^ 16).
  apply Z.bits_inj'. intros i Hi.
  rewrite Z.lor_spec, !Z.testbit_mod_pow2 by lia.
  rewrite Z.shiftl_spec by lia.
  destruct (Z.ltb_spec i 8) as [H8|H8]; simpl.
  - rewrite (Z.testbit_neg_r _ (i - 8)) by lia.
    rewrite andb_false_r. simpl.
    destruct (Z.ltb_spec i 16); [reflexivity | lia].
  - rewrite orb_false_r.
    rewrite Z.testbit_mod_pow2, Z.shiftr_spec by lia.
    replace (i - 8 + 8) with i by lia.
    destruct (Z.ltb_spec i 16) as [H16|H16]; simpl; [| reflexivity].
    destruct (Z.ltb_spec (i - 8) 8); [reflexivity | lia].
Qed.

Lemma len_insert (d : list byte) (i : nat) c : len (<[i := c]> d) = len d.
Proof. unfold len. rewrite length_insert. reflexivity. Qed.

Lemma index_insert_eq d (i : Z) c :
  0 <= i < len d -> index (<[Z.to_nat i := c]> d) i = Some c.
Proof.
  intros Hi. unfold index. rewrite len_insert.
  rewrite decide_True by lia. apply list_lookup_insert_eq.
  unfold len in Hi. lia.
Qed.

Lemma index_insert_ne d (i j : Z) c :
  0 <= i -> 0 <= j -> i <> j ->
  index (<[Z.to_nat i := c]> d) j = index d j.
Proof.
  intros Hi Hj Hne. unfold index. rewrite len_insert.
  case_decide; [| reflexivity]. apply list_lookup_insert_ne. lia.
Qed.

(** X9: the two header bytes Write stores are read back by Read as the
    length of the packet modulo 65536, in an arena of two bytes or more
    that held nothing: a length below 65536 comes back as it was written,
    and one of 65536 would come back as 0.  The head is then where the
    tail was left, at the payload. *)
Theorem header_round_trip (packet : list byte) (b b1 : Buffer) :
  head b = tail b -> 2 <= len (data b) ->
  store_length packet b = Returns tt b1 ->
  exists b2,
    decode_size b1 = Returns (len packet mod 65536) b2 /\
    head b2 = tail b1 /\ tail b2 = tail b1 /\ data b2 = data b1.
Proof.
  destruct b as [mu d h t n]. cbn [head tail data]. intros -> HL.
  unfold store_length, put_byte. msimpl. unfold store.
  case_decide as Ht; msimpl; [| discriminate].
  rewrite !len_insert.
  case_bool_decide as Hw1; msimpl.
  - rewrite len_insert. rewrite decide_True by lia.
    msimpl. rewrite !len_insert.
    rewrite bool_decide_false by lia. msimpl. intros [= <-].
    unfold decode_size, get_byte. msimpl.
    rewrite index_insert_ne by lia. rewrite index_insert_eq by lia. msimpl.
    rewrite !len_insert.
    rewrite bool_decide_true by lia. msimpl.
    rewrite index_insert_eq by (rewrite len_insert; lia).
    msimpl. rewrite !len_insert.
    rewrite bool_decide_false by lia. msimpl.
    eexists. rewrite header_decode_mod. repeat split.
  - rewrite len_insert. rewrite decide_True by lia.
    msimpl. rewrite !len_insert.
    case_bool_decide as Hw2; msimpl; intros [= <-];
      unfold decode_size, get_byte; msimpl;
      rewrite index_insert_ne by lia; rewrite index_insert_eq by lia; msimpl;
      rewrite !len_insert;
      rewrite (bool_decide_false (t + 1 >= len d)) by lia; msimpl;
      rewrite index_insert_eq by (rewrite len_insert; lia);
      msimpl; rewrite !len_insert.
    + rewrite bool_decide_true by lia. msimpl.
      eexists. rewrite header_decode_mod. repeat split.
    + rewrite bool_decide_false by lia. msimpl.
      eexists. rewrite header_decode_mod. repeat split.
Qed.

Lemma header_round_trip_witness :
  exists b2,
    decode_size (mkBuffer true [x00; x03; x00] 0 2 0)
    = Returns (len [x07; x08; x09] mod 65536) b2 /\
    head b2 = 2 /\ tail b2 = 2 /\ data b2 = [x00; x03; x00].
Proof.
  apply (header_round_trip [x07; x08; x09]
           (mkBuffer true [x00; x00; x00] 0 0 0)
           (mkBuffer true [x00; x03; x00] 0 2 0)).
  - reflexivity.
  - vm_compute. discriminate.
  - reflexivity.
Defined.

Lemma lor_range a c :
  0 <= a < 65536 -> 0 <= c < 256 -> 0 <= Z.lor a c < 65536.
Proof.
  intros Ha Hc. split; [apply Z.lor_nonneg; lia |].
  destruct (Z.eq_dec (Z.lor a c) 0) as [->|Hz]; [lia |].
  assert (Hpos : 0 < Z.lor a c).
  { pose proof (proj2 (Z.lor_nonneg a c) (conj (proj1 Ha) (proj1 Hc))). lia. }
  change 65536 with (2 ^ 16). apply Z.log2_lt_pow2; [exact Hpos |].
  rewrite Z.log2_lor by lia.
  assert (Hla : Z.log2 a < 16).
  { destruct (Z.eq_dec a 0) as [->|]; [reflexivity |].
    apply Z.log2_lt_pow2; [lia |]. change (2 ^ 16) with 65536. lia. }
  assert (Hlc : Z.log2 c < 16).
  { destruct (Z.eq_dec c 0) as [->|]; [reflexivity |].
    apply Z.log2_lt_pow2; [lia |]. change (2 ^ 16) with 65536. lia. }
  lia.
Qed.

Lemma decode_size_range n b b' :
  decode_size b = Returns n b' -> 0 <= n < 65536.
Proof.
  unfold decode_size. intros H.
  apply bind_inv in H as (n1 & b1 & _ & H).
  apply bind_inv in H as (n2 & b2 & _ & H).
  injection H as <- _.
  apply lor_range; [| apply byteZ_range].
  unfold uint16. apply Z.mod_pos_bound. lia.
Qed.

Lemma copy_out_len packet copied b x b' :
  copy_out packet copied b = Returns x b' -> len x = len packet.
Proof.
  destruct b as [mu d h t n]. unfold copy_out. msimpl.
  case_decide.
  - destruct (slice d h (h + copied)) as [s1|]; msimpl; [| discriminate].
    intros [= <- _]. unfold len. f_equal. apply length_copy.
  - destruct (slice d h (len d)) as [s1|]; msimpl; [| discriminate].
    pose proof (length_copy packet s1) as Hl.
    destruct (copy packet s1) as [p1 k]. simpl in Hl.
    destruct (slice d 0 (copied - k)) as [s2|]; msimpl; [| discriminate].
    destruct (copy_at p1 k s2) as [r2|] eqn:Hc; msimpl; [| discriminate].
    apply length_copy_at in Hc.
    intros [= <- _]. unfold len. congruence.
Qed.

(** X10: whatever the buffer, a Read that returns reports between 0 and
    65535 bytes and leaves its destination as long as it was; without an
    error the bytes reported fit the destination; with an error none are
    reported and the destination is as it was. *)
Theorem Read_result_bounds (dst : list byte) (b : Buffer) (n : Z)
    (err : option error) (dst' : list byte) (b' : Buffer) :
  Read dst b = Returns (n, err, dst') b' ->
  0 <= n <= 65535 /\
  len dst' = len dst /\
  (err = None -> n <= len dst) /\
  (err <> None -> n = 0 /\ dst' = dst).
Proof.
  intros Hr. unfold Read in Hr.
  apply bind_inv in Hr as (u & b0 & _ & Hr).
  apply bind_inv in Hr as (b1 & b1' & _ & Hr).
  case_decide as Hne.
  - apply bind_inv in Hr as (m & b2 & Hd & Hr). cbv zeta in Hr.
    pose proof (decode_size_range m b1' b2 Hd) as Hm.
    case_decide as Hs.
    + injection Hr as <- <- <- _.
      repeat split; try lia; intros; congruence.
    + apply bind_inv in Hr as (x & b3 & Hc & Hr).
      apply copy_out_len in Hc.
      apply bind_inv in Hr as (u1 & b4 & _ & Hr).
      apply bind_inv in Hr as (u2 & b5 & _ & Hr).
      apply bind_inv in Hr as (u3 & b6 & _ & Hr).
      injection Hr as <- <- <- _.
      repeat split; try lia; try assumption; intros; congruence.
  - apply bind_inv in Hr as (u1 & b2 & _ & Hr).
    injection Hr as <- <- <- _.
    repeat split; try lia; intros; try congruence. unfold len. lia.
Qed.

Lemma Read_result_bounds_witness :
  match Read [x00; x00] (mkBuffer false [x00; x01; x07; x00] 0 3 1) with
  | Returns (n, _, dst') _ => 0 <= n <= 65535 /\ len dst' = 2
  | _ => True
  end.
Proof.
  destruct (Read [x00; x00] (mkBuffer false [x00; x01; x07; x00] 0 3 1))
    as [[[n err] dst'] b'| | |] eqn:Hr; try exact I.
  destruct (Read_result_bounds _ _ n err dst' b' Hr) as (Hn & Hl & _).
  split; [exact Hn | exact Hl].
Defined.

(** ** Package list *)

Module PktListFacts.
Import PktList.

Lemma list_array_insert_ne (h : heap) a a' x :
  a <> a' -> array (<[a := x]> h) a' = array h a'.
Proof.
  intros Hne. unfold array, heap in *.
  rewrite list_lookup_insert_ne by exact Hne. reflexivity.
Qed.

Lemma list_array_insert_eq (h : heap) a x :
  (a < length h)%nat -> array (<[a := x]> h) a = x.
Proof.
  intros Hlt. unfold array, heap in *.
  rewrite list_lookup_insert_eq by exact Hlt. reflexivity.
Qed.

Lemma list_length_heap_insert (h : heap) a x : length (<[a := x]> h) = length h.
Proof. unfold heap in *. apply length_insert. Qed.

Lemma list_payload_bytes_app q1 q2 :
  payload_bytes (q1 ++ q2) = payload_bytes q1 + payload_bytes q2.
Proof. induction q1 as [|s q1 IH]; simpl; lia. Qed.

Lemma list_Write_holds s h b q :
  holds b q -> (Z.of_nat (slen s) < 65536) ->
  Write s (mkWorld h b)
  = Returns (Z.of_nat (slen s), None)
      (mkWorld h (mkBuffer false (q ++ [s]) (count b + 1)
                    (buffersize b + Z.of_nat (slen s)))).
Proof.
  intros (Hmu & Hq & _) Hs. destruct b as [mu pq n sz]. simpl in *. subst.
  unfold Write. rewrite decide_False by lia. reflexivity.
Qed.

Lemma list_Write_too_big s w :
  Z.of_nat (slen s) >= 65536 -> Write s w = Returns (0, Some ErrPacketTooBig) w.
Proof. intros Hs. unfold Write. rewrite decide_True by lia. reflexivity. Qed.

Lemma list_Read_holds d h b s q :
  holds b (s :: q) ->
  Read d (mkWorld h b)
  = Returns (Z.of_nat (slen s), None)
      (mkWorld (fst (copy h d s))
         (mkBuffer false q (count b - 1) (buffersize b - Z.of_nat (slen s)))).
Proof.
  intros (Hmu & Hq & _). destruct b as [mu pq n sz]. simpl in *. subst.
  reflexivity.
Qed.

Lemma list_Read_empty d h b :
  holds b [] -> Read d (mkWorld h b) = Returns (0, None) (mkWorld h b).
Proof.
  intros (Hmu & Hq & _). destruct b as [mu pq n sz]. simpl in *. subst.
  reflexivity.
Qed.

Lemma list_do_call_holds c h b q :
  holds b q ->
  exists r h',
    do_call c (mkWorld h b)
    = Returns r (mkWorld h' (mkBuffer false (queue_step q c)
                      (Z.of_nat (length (queue_step q c)))
                      (payload_bytes (queue_step q c)))) /\
    outline r = model_call q c /\
    length h' = length h /\
    (forall a, (forall d, c = CallRead d -> arr d <> a) ->
               (forall i x, c <> CallerStore a i x) ->
               array h' a = array h a).
Proof.
  intros Hb. pose proof Hb as (Hmu & Hq & Hc & Hs).
  destruct c as [s|d| | |a i x]; simpl.
  - unfold bind. case_decide as Hlt.
    + rewrite (list_Write_holds s h b q Hb Hlt). eexists _, h. split.
      { unfold ret. simpl. rewrite Hc, Hs, length_app, list_payload_bytes_app.
        simpl. repeat f_equal; lia. }
      auto.
    + rewrite list_Write_too_big by lia. eexists _, h. split.
      { unfold ret. simpl. destruct b; simpl in *. subst. reflexivity. }
      auto.
  - unfold bind. destruct q as [|s q].
    + rewrite (list_Read_empty d h b Hb). eexists _, h. split.
      { simpl. destruct b; simpl in *. subst. reflexivity. }
      auto.
    + rewrite (list_Read_holds d h b s q Hb). eexists _, _. split.
      { cbn [length payload_bytes] in Hc, Hs. rewrite Nat2Z.inj_succ in Hc.
        cbn [queue_step drop]. rewrite drop_0. unfold ret. do 2 f_equal.
        f_equal; lia. }
      split; [reflexivity |]. unfold copy. simpl. split.
      { apply list_length_heap_insert. }
      intros a Ha _. apply list_array_insert_ne, (Ha d). reflexivity.
  - unfold bind, Count, bind, Lock, Unlock, get, ret. simpl. rewrite Hmu. simpl.
    eexists _, h. split.
    { destruct b; simpl in *. subst. reflexivity. }
    auto.
  - unfold bind, Size, bind, Lock, Unlock, get, ret. simpl. rewrite Hmu. simpl.
    eexists _, h. split.
    { destruct b; simpl in *. subst. reflexivity. }
    auto.
  - eexists _, _. split.
    { destruct b; simpl in *. subst. reflexivity. }
    split; [reflexivity |]. split; [apply list_length_heap_insert |].
    intros a0 _ Hne. apply list_array_insert_ne.
    intros ->. apply (Hne i x). reflexivity.
Qed.

Lemma list_holds_new : holds NewBuffer [].
Proof. repeat split. Qed.

Lemma list_Count_holds h b q :
  holds b q -> Count (mkWorld h b) = Returns (Z.of_nat (length q)) (mkWorld h b).
Proof.
  intros (Hmu & Hq & Hc & Hs). destruct b as [mu pq n sz]. simpl in *. subst.
  reflexivity.
Qed.

Lemma list_Size_holds h b q :
  holds b q -> Size (mkWorld h b) = Returns (payload_bytes q) (mkWorld h b).
Proof.
  intros (Hmu & Hq & Hc & Hs). destruct b as [mu pq n sz]. simpl in *. subst.
  reflexivity.
Qed.

Lemma list_holds_intro q :
  holds (mkBuffer false q (Z.of_nat (length q)) (payload_bytes q)) q.
Proof. repeat split. Qed.

Lemma list_run_holds cs : forall h b q,
  holds b q ->
  exists rs h' b',
    run cs (mkWorld h b) = Returns rs (mkWorld h' b') /\
    holds b' (fold_left queue_step cs q) /\
    map outline rs = model_run q cs /\
    length h' = length h.
Proof.
  induction cs as [|c cs IH]; intros h b q Hb.
  - exists [], h, b. repeat split; try apply Hb.
  - destruct (list_do_call_holds c h b q Hb) as (r & h1 & Hr & Ho & Hl & _).
    destruct (IH h1 _ _ (list_holds_intro (queue_step q c)))
      as (rs & h2 & b2 & Hrs & Hb2 & Hos & Hl2).
    exists (r :: rs), h2, b2. cbn [run]. unfold bind at 1. rewrite Hr.
    unfold bind at 1. rewrite Hrs. repeat split; try apply Hb2.
    + cbn [map model_run]. rewrite Ho, Hos. reflexivity.
    + lia.
Qed.

Lemma list_queue_step_small q c :
  Forall (fun s => Z.of_nat (slen s) < 65536) q ->
  Forall (fun s => Z.of_nat (slen s) < 65536) (queue_step q c).
Proof.
  intros Hq. destruct c; simpl; try exact Hq.
  - case_decide; [| exact Hq]. apply Forall_app. split; [exact Hq |].
    repeat constructor. assumption.
  - apply Forall_drop. exact Hq.
Qed.

Lemma list_queued_small cs : forall q,
  Forall (fun s => Z.of_nat (slen s) < 65536) q ->
  Forall (fun s => Z.of_nat (slen s) < 65536) (fold_left queue_step cs q).
Proof.
  induction cs as [|c cs IH]; intros q Hq; simpl; [exact Hq |].
  apply IH, list_queue_step_small, Hq.
Qed.

Lemma list_payload_bytes_bounds q :
  Forall (fun s => Z.of_nat (slen s) < 65536) q ->
  0 <= payload_bytes q <= 65535 * Z.of_nat (length q).
Proof.
  induction 1 as [|s q Hs _ IH]; cbn [payload_bytes length]; lia.
Qed.

(** X11: Package list: on a new buffer, with any memory, every sequence
    of Writes, Reads, Counts and Sizes, and of stores of the caller into
    its arrays in between, returns; it leaves the mutex free and the queue
    the calls make, Count is the length of that queue, Size the sum of the
    lengths of its payloads, between 0 and 65535 for each packet, and what
    the calls return is what the queue alone tells: no Read fails, and a
    Read returns the length of the payload at the front whatever the length
    of its destination. *)
Theorem list_accounting (h : heap) (cs : list call) :
  exists rs w,
    run cs (mkWorld h NewBuffer) = Returns rs w /\
    mutex (buf w) = false /\
    pktqueue (buf w) = fold_left queue_step cs [] /\
    map outline rs = model_run [] cs /\
    Count w = Returns (Z.of_nat (length (pktqueue (buf w)))) w /\
    Size w = Returns (payload_bytes (pktqueue (buf w))) w /\
    0 <= payload_bytes (pktqueue (buf w))
      <= 65535 * Z.of_nat (length (pktqueue (buf w))).
Proof.
  destruct (list_run_holds cs h NewBuffer [] list_holds_new)
    as (rs & h' & b' & Hrun & Hb & Ho & _).
  exists rs, (mkWorld h' b'). pose proof Hb as (Hmu & Hq & _).
  cbn [buf]. rewrite Hq.
  repeat split; try assumption.
  - apply list_Count_holds, Hb.
  - apply list_Size_holds, Hb.
  - apply list_payload_bytes_bounds, list_queued_small. constructor.
  - apply list_payload_bytes_bounds, list_queued_small. constructor.
Qed.

Lemma list_length_bytes h s : valid h s -> length (bytes h s) = slen s.
Proof.
  intros [_ Hs]. unfold bytes. rewrite length_take, length_drop. lia.
Qed.

Lemma list_array_copy h d s :
  valid h d ->
  array (fst (copy h d s)) (arr d)
  = take (off d) (array h (arr d))
    ++ take (Nat.min (slen d) (slen s)) (bytes h s)
    ++ drop (off d + Nat.min (slen d) (slen s)) (array h (arr d)).
Proof. intros [Hd _]. unfold copy. cbn [fst]. apply list_array_insert_eq, Hd. Qed.

Lemma list_array_copy_ne h d s a :
  arr d <> a -> array (fst (copy h d s)) a = array h a.
Proof. intros Hne. unfold copy. cbn [fst]. apply list_array_insert_ne, Hne. Qed.

Lemma list_length_copy_heap h d s : length (fst (copy h d s)) = length h.
Proof. unfold copy. cbn [fst]. apply list_length_heap_insert. Qed.

Lemma list_length_array_copy h d s a :
  valid h d -> valid h s ->
  length (array (fst (copy h d s)) a) = length (array h a).
Proof.
  intros Hd Hs. destruct (decide (arr d = a)) as [<-|Hne].
  - rewrite list_array_copy by exact Hd. pose proof (list_length_bytes h s Hs) as Hl.
    destruct Hd as [_ Hd].
    rewrite !length_app, !length_take, length_drop, Hl. lia.
  - apply f_equal, list_array_copy_ne, Hne.
Qed.

Lemma list_bytes_copy h d s :
  valid h d -> valid h s ->
  bytes (fst (copy h d s)) d
  = take (Nat.min (slen d) (slen s)) (bytes h s)
    ++ drop (Nat.min (slen d) (slen s)) (bytes h d).
Proof.
  intros Hd Hs. pose proof (list_length_bytes h s Hs) as Hl.
  unfold bytes at 1. rewrite list_array_copy by exact Hd.
  destruct Hd as [_ Hd].
  set (n := Nat.min (slen d) (slen s)) in *.
  set (a := array h (arr d)) in *.
  rewrite drop_app_length' by (rewrite length_take; lia).
  rewrite take_app.
  rewrite (take_ge (take n _)) by (rewrite length_take; lia).
  f_equal. rewrite length_take, Hl.
  unfold bytes. fold a. rewrite skipn_firstn_comm, drop_drop.
  f_equal; lia.
Qed.

Lemma list_valid_shape h h' s :
  length h' = length h ->
  (forall a, length (array h' a) = length (array h a)) ->
  valid h s -> valid h' s.
Proof. intros Hl Ha [H1 H2]. split; [lia | rewrite Ha; exact H2]. Qed.

Lemma list_bytes_agree h h' s :
  array h' (arr s) = array h (arr s) -> bytes h' s = bytes h s.
Proof. intros Ha. unfold bytes. rewrite Ha. reflexivity. Qed.

Lemma list_do_call_Read d h b s q :
  holds b (s :: q) ->
  do_call (CallRead d) (mkWorld h b)
  = Returns (ReadResult (Z.of_nat (slen s)) None (bytes (fst (copy h d s)) d))
      (mkWorld (fst (copy h d s))
         (mkBuffer false q (Z.of_nat (length q)) (payload_bytes q))).
Proof.
  intros Hb. cbn [do_call]. unfold bind. rewrite (list_Read_holds d h b s q Hb).
  destruct Hb as (_ & _ & Hc & Hs).
  cbn [length payload_bytes] in Hc, Hs. rewrite Nat2Z.inj_succ in Hc.
  cbn [fst snd mem]. do 3 f_equal; lia.
Qed.

Lemma list_do_call_Write s h b q :
  holds b q -> Z.of_nat (slen s) < 65536 ->
  do_call (CallWrite s) (mkWorld h b)
  = Returns (WriteResult (Z.of_nat (slen s)) None)
      (mkWorld h (mkBuffer false (q ++ [s]) (Z.of_nat (length (q ++ [s])))
                    (payload_bytes (q ++ [s])))).
Proof.
  intros Hb Hs. cbn [do_call]. unfold bind. rewrite (list_Write_holds s h b q Hb Hs).
  destruct Hb as (_ & _ & Hc & Hz). unfold ret. cbn [fst snd].
  rewrite length_app, list_payload_bytes_app. cbn [length payload_bytes].
  do 3 f_equal; lia.
Qed.

Lemma list_do_call_Store a i c h b :
  do_call (CallerStore a i c) (mkWorld h b)
  = Returns Stored (mkWorld (<[a := <[i := c]> (array h a)]> h) b).
Proof. reflexivity. Qed.

Lemma list_run_cons c cs w :
  run (c :: cs) w
  = match do_call c w with
    | Returns r w1 =>
        match run cs w1 with
        | Returns rs w2 => Returns (r :: rs) w2
        | Panics => Panics
        | Blocks => Blocks
        end
    | Panics => Panics
    | Blocks => Blocks
    end.
Proof. reflexivity. Qed.

Lemma list_run_app cs1 : forall cs2 w,
  run (cs1 ++ cs2) w
  = bind (run cs1) (fun r1 => bind (run cs2) (fun r2 => ret (r1 ++ r2))) w.
Proof.
  induction cs1 as [|c cs1 IH]; intros cs2 w.
  - cbn [app run]. unfold bind, ret. destruct (run cs2 w); reflexivity.
  - cbn [app run]. unfold bind at 1 3 4. destruct (do_call c w) as [r w1| |];
      try reflexivity.
    unfold bind at 1. rewrite IH. unfold bind, ret.
    destruct (run cs1 w1) as [r1 w2| |]; try reflexivity.
    destruct (run cs2 w2); reflexivity.
Qed.

Lemma list_run_Writes ss : forall h b q,
  holds b q -> Forall (fun s => Z.of_nat (slen s) < 65536) ss ->
  exists b',
    run (map CallWrite ss) (mkWorld h b)
    = Returns (map (fun s => WriteResult (Z.of_nat (slen s)) None) ss)
        (mkWorld h b') /\
    holds b' (q ++ ss).
Proof.
  induction ss as [|s ss IH]; intros h b q Hb Hss.
  - exists b. rewrite app_nil_r. split; [reflexivity | exact Hb].
  - inversion Hss as [|? ? Hs Hss']; subst.
    destruct (IH h _ (q ++ [s]) (list_holds_intro _) Hss') as (b' & Hr & Hb').
    exists b'. cbn [map run]. unfold bind at 1.
    rewrite (list_do_call_Write s h b q Hb Hs). unfold bind at 1. rewrite Hr.
    split; [reflexivity |]. rewrite <- (assoc_L (++)) in Hb'. exact Hb'.
Qed.

Lemma list_run_Reads h ss ds :
  Forall2 (fun s d => (slen s <= slen d)%nat) ss ds ->
  forall h' b,
    holds b ss ->
    length h' = length h ->
    (forall a, length (array h' a) = length (array h a)) ->
    (forall s, In s ss -> array h' (arr s) = array h (arr s)) ->
    Forall (valid h) ss -> Forall (valid h) ds ->
    (forall s d, In s ss -> In d ds -> arr d <> arr s) ->
    exists rs w,
      run (map CallRead ds) (mkWorld h' b) = Returns rs w /\
      map observe rs
      = map (fun s => ReadResult (Z.of_nat (slen s)) None (bytes h s)) ss /\
      holds (buf w) [].
Proof.
  induction 1 as [|s d ss ds Hsd _ IH]; intros h' b Hb Hl Hsh Hag Hvs Hvd Hsep.
  - exists [], (mkWorld h' b). repeat split; apply Hb.
  - inversion Hvs as [|? ? Hs Hvs']; subst.
    inversion Hvd as [|? ? Hd Hvd']; subst.
    pose proof (list_valid_shape h h' s Hl Hsh Hs) as Hs1.
    pose proof (list_valid_shape h h' d Hl Hsh Hd) as Hd1.
    destruct (IH (fst (copy h' d s)) _ (list_holds_intro ss)) as (rs & w & Hr & Ho & Hw).
    + rewrite list_length_copy_heap. exact Hl.
    + intros a. rewrite list_length_array_copy by assumption. apply Hsh.
    + intros s' Hs'. rewrite list_array_copy_ne.
      * apply Hag. right. exact Hs'.
      * apply Hsep; [right; exact Hs' | left; reflexivity].
    + exact Hvs'.
    + exact Hvd'.
    + intros s' d' Hs' Hd'. apply Hsep; right; assumption.
    + eexists _, w. cbn [map run]. unfold bind at 1.
      rewrite (list_do_call_Read d h' b s ss Hb). unfold bind at 1. rewrite Hr.
      split; [reflexivity |]. split; [| exact Hw].
      cbn [map observe]. rewrite Ho. f_equal. f_equal.
      rewrite Nat2Z.id, list_bytes_copy by assumption.
      pose proof (list_length_bytes h' s Hs1) as Hls.
      rewrite take_app_le by (rewrite length_take; lia).
      rewrite take_take, Nat.min_r by lia.
      rewrite take_ge by lia.
      apply list_bytes_agree, Hag. left. reflexivity.
Qed.

(** X12: Package list: a Read of a buffer whose queue is not empty
    returns the length of the payload at the front and no error, whatever
    the length of the destination; the destination then shows the first
    bytes of the payload, as many as it can hold, followed by what it
    showed before, and no other array has changed; the packet has left the
    queue, also when the destination was shorter and the rest of the
    payload was not copied. *)
Theorem list_Read_front (h : heap) (b : Buffer) (s : slice) (q : list slice)
    (d : slice) :
  holds b (s :: q) -> valid h s -> valid h d ->
  exists w',
    do_call (CallRead d) (mkWorld h b)
    = Returns (ReadResult (Z.of_nat (slen s)) None
                 (take (slen d) (bytes h s) ++ drop (slen s) (bytes h d))) w' /\
    holds (buf w') q /\
    (forall a, a <> arr d -> array (mem w') a = array h a).
Proof.
  intros Hb Hs Hd. eexists. rewrite (list_do_call_Read d h b s q Hb).
  split; [| split].
  - f_equal. f_equal. rewrite list_bytes_copy by assumption.
    pose proof (list_length_bytes h s Hs) as Hls.
    pose proof (list_length_bytes h d Hd) as Hld.
    destruct (decide (slen d <= slen s)%nat) as [Hle|Hgt].
    + rewrite Nat.min_l by lia. f_equal.
      rewrite !drop_ge by lia. reflexivity.
    + rewrite Nat.min_r by lia. f_equal.
      rewrite !take_ge by lia. reflexivity.
  - apply list_holds_intro.
  - intros a Ha. cbn [mem]. apply list_array_copy_ne. congruence.
Qed.

Lemma list_Read_front_witness :
  exists w',
    do_call (CallRead (mkSlice 1 0 2))
      (mkWorld [[x01; x02; x03]; [x00; x00]]
         (mkBuffer false [mkSlice 0 0 3] 1 3))
    = Returns (ReadResult 3 None [x01; x02]) w' /\
    holds (buf w') [] /\
    (forall a, a <> 1%nat ->
       array (mem w') a = array [[x01; x02; x03]; [x00; x00]] a).
Proof.
  apply (list_Read_front [[x01; x02; x03]; [x00; x00]]
           (mkBuffer false [mkSlice 0 0 3] 1 3) (mkSlice 0 0 3) []
           (mkSlice 1 0 2)).
  - repeat split.
  - split; simpl; lia.
  - split; simpl; lia.
Defined.

(** X13: Package list: packets written to a new buffer are read back in
    the order written, each Read returning the length of its packet, no
    error and the packet's bytes, when the slices lie in the memory, each
    packet is shorter than 65536 bytes, each destination is at least as
    long as the packet it receives, and no destination shares its array
    with a written slice. *)
Theorem list_fifo (h : heap) (ss ds : list slice) :
  Forall (valid h) ss -> Forall (valid h) ds ->
  Forall (fun s => Z.of_nat (slen s) < 65536) ss ->
  Forall2 (fun s d => (slen s <= slen d)%nat) ss ds ->
  (forall s d, In s ss -> In d ds -> arr d <> arr s) ->
  exists rs w,
    run (map CallWrite ss ++ map CallRead ds) (mkWorld h NewBuffer)
    = Returns rs w /\
    map observe rs
    = map (fun s => WriteResult (Z.of_nat (slen s)) None) ss
      ++ map (fun s => ReadResult (Z.of_nat (slen s)) None (bytes h s)) ss /\
    holds (buf w) [].
Proof.
  intros Hvs Hvd Hsm Hlen Hsep.
  destruct (list_run_Writes ss h NewBuffer [] list_holds_new Hsm) as (b1 & Hw1 & Hb1).
  destruct (list_run_Reads h ss ds Hlen h b1)
    as (rs & w & Hr & Ho & Hw); try assumption; try reflexivity.
  eexists _, w. rewrite list_run_app. unfold bind at 1. rewrite Hw1.
  unfold bind at 1. rewrite Hr. split; [reflexivity |].
  split; [| exact Hw].
  rewrite map_app, Ho. f_equal.
  rewrite map_map. apply map_ext. reflexivity.
Qed.

Lemma list_fifo_witness :
  exists rs w,
    run (map CallWrite [mkSlice 0 0 2; mkSlice 0 2 1]
         ++ map CallRead [mkSlice 1 0 2; mkSlice 1 0 2])
      (mkWorld [[x01; x02; x03]; [x00; x00]] NewBuffer)
    = Returns rs w /\
    map observe rs
    = [WriteResult 2 None; WriteResult 1 None;
       ReadResult 2 None [x01; x02]; ReadResult 1 None [x03]] /\
    holds (buf w) [].
Proof.
  apply (list_fifo [[x01; x02; x03]; [x00; x00]]
           [mkSlice 0 0 2; mkSlice 0 2 1] [mkSlice 1 0 2; mkSlice 1 0 2]).
  - repeat constructor; simpl; lia.
  - repeat constructor; simpl; lia.
  - repeat constructor; simpl; lia.
  - repeat constructor; simpl; lia.
  - intros s d Hs Hd.
    simpl in Hs, Hd.
    destruct Hs as [<-|[<-|[]]], Hd as [<-|[<-|[]]]; simpl; lia.
Defined.

(** X14: Package list: Write keeps the slice it is given and copies
    nothing.  After a Write to an empty buffer, a store of the caller into
    a byte of the written slice is seen by the Read that follows: the Read
    returns the packet with that byte replaced. *)
Theorem list_Write_keeps_slice (h : heap) (b : Buffer) (s d : slice)
    (i : nat) (c : byte) :
  holds b [] -> valid h s -> valid h d ->
  Z.of_nat (slen s) < 65536 -> (slen s <= slen d)%nat -> arr d <> arr s ->
  (i < slen s)%nat ->
  exists rs w,
    run [CallWrite s; CallerStore (arr s) (off s + i) c; CallRead d]
      (mkWorld h b)
    = Returns rs w /\
    map observe rs
    = [WriteResult (Z.of_nat (slen s)) None; Stored;
       ReadResult (Z.of_nat (slen s)) None (<[i := c]> (bytes h s))] /\
    holds (buf w) [].
Proof.
  intros Hb Hs Hd Hsm Hle Hne Hi.
  set (h1 := <[arr s := <[(off s + i)%nat := c]> (array h (arr s))]> h).
  assert (Hl1 : length h1 = length h) by apply list_length_heap_insert.
  assert (Ha1 : array h1 (arr s) = <[(off s + i)%nat := c]> (array h (arr s))).
  { apply list_array_insert_eq, Hs. }
  assert (Hsh : forall a, length (array h1 a) = length (array h a)).
  { intros a. destruct (decide (arr s = a)) as [<-|Ha].
    - rewrite Ha1. apply length_insert.
    - unfold h1. rewrite list_array_insert_ne by exact Ha. reflexivity. }
  pose proof (list_valid_shape h h1 s Hl1 Hsh Hs) as Hs1.
  pose proof (list_valid_shape h h1 d Hl1 Hsh Hd) as Hd1.
  eexists _, _.
  rewrite list_run_cons, (list_do_call_Write s h b [] Hb Hsm). change ([] ++ [s]) with [s].
  rewrite list_run_cons, list_do_call_Store. fold h1.
  rewrite list_run_cons, (list_do_call_Read d h1 _ s [] (list_holds_intro [s])).
  cbn [run]. unfold ret. split; [reflexivity |]. split; [| apply list_holds_intro].
  cbn [map observe]. do 3 f_equal.
  rewrite Nat2Z.id, list_bytes_copy by assumption.
  pose proof (list_length_bytes h1 s Hs1) as Hls.
  rewrite take_app_le by (rewrite length_take; lia).
  rewrite take_take, Nat.min_r by lia.
  rewrite take_ge by lia.
  unfold bytes. rewrite Ha1.
  destruct Hs as [_ Hs].
  rewrite drop_insert_ge by lia.
  rewrite take_insert_lt by lia.
  replace (off s + i - off s)%nat with i by lia. reflexivity.
Qed.

Lemma list_Write_keeps_slice_witness :
  exists rs w,
    run [CallWrite (mkSlice 0 0 3); CallerStore 0 (0 + 1) xff;
         CallRead (mkSlice 1 0 4)]
      (mkWorld [[x01; x02; x03]; [x00; x00; x00; x00]] NewBuffer)
    = Returns rs w /\
    map observe rs
    = [WriteResult 3 None; Stored; ReadResult 3 None [x01; xff; x03]] /\
    holds (buf w) [].
Proof.
  apply (list_Write_keeps_slice [[x01; x02; x03]; [x00; x00; x00; x00]]
           NewBuffer (mkSlice 0 0 3) (mkSlice 1 0 4) 1 xff).
  - repeat split.
  - split; simpl; lia.
  - split; simpl; lia.
  - simpl; lia.
  - simpl; lia.
  - simpl; lia.
  - simpl; lia.
Defined.

End PktListFacts.
